(** * A shallow embedding of [erkc63/client.py]

    The client of the ERKC billing portal: the session state machine
    ([open], [close], [_check_session], the [api] decorator) and the
    loops that rebuild accruals and meter histories from the rows the
    portal answers with.

    Conventions of the embedding.
    - A Python value of type [str | None] is an [option string]; an
      [int] is a [Z]; a [dt.date] is the [Z] of its proleptic ordinal,
      so that [end -= dt.timedelta(days=1)] is [end_ - 1].
    - A Python [float] is an abstract type with a truth test and the
      comparison [==]: the code only stores floats, compares them and
      tests them for zero.  Nothing is assumed of [==]: a NaN differs
      from itself.
    - A call that can raise returns a [result]; the exception classes of
      [errors.py] and the builtin ones the code can meet are the
      constructors of [exn].
    - The modules [utils.py], [parsers.py], [accrual.py] and [meters.py]
      are not part of the sources read here: their functions are fields
      of the classes [Builtins], [Utils], [Parsers] and [MonthAccruals],
      their data classes are records with the fields [client.py] reads
      and writes. *)

From Stdlib Require Import List String Ascii ZArith Bool Arith Lia.
From Stdlib Require Import DecimalString DecimalZ DecimalPos.
Import ListNotations.
Local Open Scope string_scope.
Local Open Scope list_scope.
Local Open Scope Z_scope.

(** ** Exceptions and results *)

Inductive exn : Type :=
| AccountBindingError
| AccountNotFound
| AuthorizationError
| AuthorizationRequired
| ParsingError
| AssertionError
| IndexError
| KeyError
| TypeError
| ValueError
| ClientError.  (* whatever the aiohttp transport raises *)

Inductive result (A : Type) : Type :=
| Ok (a : A)
| Err (e : exn).
Arguments Ok {A} a.
Arguments Err {A} e.

Definition rbind {A B : Type} (r : result A) (k : A -> result B) : result B :=
  match r with
  | Ok a => k a
  | Err e => Err e
  end.

Declare Scope result_scope.
Delimit Scope result_scope with result.
Notation "x <- c1 ;; c2" := (rbind c1 (fun x => c2))
  (at level 61, c1 at next level, right associativity) : result_scope.

(** [seq[i]] on a Python sequence. *)
Definition getitem {A : Type} (l : list A) (i : nat) : result A :=
  match nth_error l i with
  | Some a => Ok a
  | None => Err IndexError
  end.

(** [map(f, xs)] consumed to its end, stopping at the first exception. *)
Fixpoint map_result {A B : Type} (f : A -> result B) (l : list A) : result (list B) :=
  match l with
  | [] => Ok []
  | a :: l' =>
      match f a with
      | Ok b =>
          match map_result f l' with
          | Ok bs => Ok (b :: bs)
          | Err e => Err e
          end
      | Err e => Err e
      end
  end.

(** Truth value of a [str | None]. *)
Definition str_truthy (s : option string) : bool :=
  match s with
  | Some s' => negb (s' =? "")%string
  | None => false
  end.

(** Python's [a or b] on [str | None]. *)
Definition str_or (a b : option string) : option string :=
  if str_truthy a then a else b.

(** ** Insertion-ordered dictionaries

    [dict] keeps its keys in the order of their first insertion; the
    loops below rely on it, so a dictionary is an association list that
    only grows at its end. *)

Section Dict.
Context {K V : Type}.
Variable eqb : K -> K -> bool.

Fixpoint dict_get (k : K) (d : list (K * V)) : option V :=
  match d with
  | [] => None
  | (k', v) :: d' => if eqb k' k then Some v else dict_get k d'
  end.

Definition dict_mem (k : K) (d : list (K * V)) : bool :=
  match dict_get k d with
  | Some _ => true
  | None => false
  end.

(** [d.setdefault(k, v)]: the dictionary afterwards. *)
Definition setdefault (k : K) (v : V) (d : list (K * V)) : list (K * V) :=
  if dict_mem k d then d else d ++ [(k, v)].

(** In-place mutation of the object stored under [k]. *)
Fixpoint dict_modify (k : K) (f : V -> V) (d : list (K * V)) : list (K * V) :=
  match d with
  | [] => []
  | (k', v) :: d' =>
      if eqb k' k then (k', f v) :: d' else (k', v) :: dict_modify k f d'
  end.
End Dict.

Section FromKeys.
Context {A : Type}.
Variable eq_dec : forall x y : A, {x = y} + {x <> y}.

(** [d[x] = None] on a dictionary used as an ordered set of keys: a key
    that is there keeps its place, a new one goes to the end. *)
Definition dict_add (d : list A) (x : A) : list A :=
  if in_dec eq_dec x d then d else d ++ [x].

(** The keys of [dict.fromkeys(v)], in order. *)
Definition fromkeys (v : list A) : list A := fold_left dict_add v [].
End FromKeys.

Section FromKeysBy.
Context {A : Type}.
(** [k == x], for a key [k] of the dictionary and a key [x] looked up:
    no law is assumed of it. *)
Variable eqb : A -> A -> bool.

(** [d[x] = None] when the keys are compared with [==]: [x] goes to the
    end unless a key that is there compares equal to it. *)
Definition dict_add_by (d : list A) (x : A) : list A :=
  if existsb (fun k => eqb k x) d then d else d ++ [x].

(** The keys of [dict.fromkeys(v)], in order. *)
Definition fromkeys_by (v : list A) : list A := fold_left dict_add_by v [].

(** Following the specification, not the code: an entry stays where it
    first appears, and the later entries that compare equal to it
    collapse into it.  The first argument bounds the length of the
    list. *)
Fixpoint first_seen_upto (n : nat) (v : list A) : list A :=
  match n, v with
  | S n', x :: rest =>
      x :: first_seen_upto n' (filter (fun y => negb (eqb x y)) rest)
  | _, _ => []
  end.

Definition first_seen (v : list A) : list A :=
  first_seen_upto (List.length v) v.
End FromKeysBy.

(** ** What [client.py] imports

    Python's [float] and [datetime.strptime], then [utils.py],
    [parsers.py] and the [MonthAccrual] class of [accrual.py]. *)

Class Builtins : Type := {
  float : Type;
  (** [x == y]; it is not assumed to be reflexive ([nan == nan] is
      false) *)
  float_eqb : float -> float -> bool;
  (** [bool(x)] *)
  float_truthy : float -> bool;
  (** [x <= 0] *)
  float_le0 : float -> bool;
  (** [float(s)] *)
  pyfloat : string -> result float;
  (** [dt.datetime.strptime(s, "%a, %d-%b-%Y %H:%M:%S %Z")] read as UTC,
      in seconds *)
  strptime : string -> result Z
}.

Class Utils `{Builtins} : Type := {
  to_float : string -> result float;
  date_attr : string -> result Z;
  data_attr : string -> result string;
  str_to_date : string -> result Z;
  date_to_str : Z -> string
}.

Class Parsers : Type := {
  parse_token : string -> result string;
  parse_accounts : string -> result (list Z)
}.

Class MonthAccruals `{Builtins} : Type := {
  MonthAccrual : Type;
  (** [MonthAccrual(account, date, *floats)] *)
  mkMonthAccrual : Z -> Z -> list float -> result MonthAccrual;
  month_summa : MonthAccrual -> float
}.

(** ** Accruals: [year_accruals] and [accruals_history] *)

Module Accruals.

Section WithUtils.
Context `{Utils} `{!MonthAccruals}.

(** [accrual.Accrual]: the fields [year_accruals] fills and
    [download_pdf] reads. *)
Record Accrual : Type := mkAccrual {
  account : Z;
  date : Z;
  summa : float;
  peni : float;
  bill_id : option string;
  peni_id : option string
}.

Definition set_bill_id (id : string) (a : Accrual) : Accrual :=
  mkAccrual (account a) (date a) (summa a) (peni a) (Some id) (peni_id a).

Definition set_peni_id (id : string) (a : Accrual) : Accrual :=
  mkAccrual (account a) (date a) (summa a) (peni a) (bill_id a) (Some id).

Definition db_t : Type := list (Z * Accrual).

(** [limit and limit == len(db) and date not in db] *)
Definition limit_reached (limit : option Z) (db : db_t) (d : Z) : bool :=
  match limit with
  | None => false
  | Some n =>
      negb (n =? 0) && (n =? Z.of_nat (List.length db))
      && negb (dict_mem Z.eqb d db)
  end.

(** One turn of the loop of [year_accruals] on the row [data]:
    [Ok None] is [break], [Ok (Some db')] goes on with [db']. *)
Definition year_step (acc : Z) (limit : option Z) (db : db_t)
    (data : list string) : result (option db_t) :=
  (d0 <- getitem data 0 ;;
   d <- date_attr d0 ;;
   if limit_reached limit db d then Ok None
   else
     d1 <- getitem data 1 ;;
     s <- to_float d1 ;;
     d2 <- getitem data 2 ;;
     p <- to_float d2 ;;
     let db1 := setdefault Z.eqb d (mkAccrual acc d s p None None) db in
     d5 <- getitem data 5 ;;
     id <- data_attr d5 ;;
     d3 <- getitem data 3 ;;
     if (d3 =? "общая")%string then
       Ok (Some (dict_modify Z.eqb d (set_bill_id id) db1))
     else if (d3 =? "пени")%string then
       Ok (Some (dict_modify Z.eqb d (set_peni_id id) db1))
     else Err ParsingError)%result.

Fixpoint year_loop (acc : Z) (limit : option Z) (db : db_t)
    (resp : list (list string)) : result db_t :=
  match resp with
  | [] => Ok db
  | data :: rest =>
      match year_step acc limit db data with
      | Ok (Some db') => year_loop acc limit db' rest
      | Ok None => Ok db
      | Err e => Err e
      end
  end.

(** [year_accruals] from the decoded answer of [getReceipts] to
    [tuple(db.values())]. *)
Definition year_accruals_rows (acc : Z) (limit : option Z)
    (resp : list (list string)) : result (list Accrual) :=
  (db <- year_loop acc limit [] resp ;; Ok (map snd db))%result.

(** [MonthAccrual(account, date_attr(date), *map(to_float, floats))]
    for a row [date, *floats]. *)
Definition month_row (acc : Z) (row : list string) : result MonthAccrual :=
  match row with
  | [] => Err ValueError
  | d0 :: floats =>
      (d <- date_attr d0 ;;
       fs <- map_result to_float floats ;;
       mkMonthAccrual acc d fs)%result
  end.

(** The loop of [accruals_history]; [out] is [result] so far. *)
Fixpoint month_loop (acc : Z) (resp : list (list string))
    (out : list MonthAccrual) : result (list MonthAccrual) :=
  match resp with
  | [] => Ok out
  | row :: rest =>
      match month_row acc row with
      | Ok a =>
          if float_truthy (month_summa a)
          then month_loop acc rest (out ++ [a])
          else Ok out
      | Err e => Err e
      end
  end.

(** [accruals_history] from the decoded answer of [accrualsHistory]
    to [tuple(result)]. *)
Definition accruals_history_rows (acc : Z) (resp : list (list string))
    : result (list MonthAccrual) :=
  month_loop acc resp [].

(** A row that decodes into a month accrual with a total that is not
    zero. *)
Definition charged (acc : Z) (row : list string) (a : MonthAccrual) : Prop :=
  month_row acc row = Ok a /\ float_truthy (month_summa a) = true.

(** Where the loop stops: at the end of the answer, or at a row that
    decodes into an accrual with a zero total. *)
Definition stops_at (acc : Z) (rest : list (list string)) : Prop :=
  rest = [] \/
  exists z post a,
    rest = z :: post /\ month_row acc z = Ok a /\
    float_truthy (month_summa a) = false.

(** *** The grouping of [year_accruals], said in one piece

    The description of the result that the loop is compared with: one
    record per date, in the order the dates first appear; the record of
    a date takes its amounts from the first row of that date, its bill
    identifier from the last row of that date tagged "общая" and its
    penalty identifier from the last one tagged "пени". *)

(** A row with its fields decoded, in the order the loop decodes them. *)
Record receipt_row : Type := mkRow {
  r_date : Z;
  r_summa : float;
  r_peni : float;
  r_id : string;
  r_tag : string
}.

Definition read_row (data : list string) : result receipt_row :=
  (d0 <- getitem data 0 ;;
   d <- date_attr d0 ;;
   d1 <- getitem data 1 ;;
   s <- to_float d1 ;;
   d2 <- getitem data 2 ;;
   p <- to_float d2 ;;
   d5 <- getitem data 5 ;;
   id <- data_attr d5 ;;
   d3 <- getitem data 3 ;;
   Ok (mkRow d s p id d3))%result.

Definition reads (data : list string) (r : receipt_row) : Prop :=
  read_row data = Ok r.

(** What the loop does with a decoded row once the limit let it pass. *)
Definition apply_row (acc : Z) (db : db_t) (r : receipt_row)
    : result (option db_t) :=
  let db1 :=
    setdefault Z.eqb (r_date r)
      (mkAccrual acc (r_date r) (r_summa r) (r_peni r) None None) db in
  if (r_tag r =? "общая")%string then
    Ok (Some (dict_modify Z.eqb (r_date r) (set_bill_id (r_id r)) db1))
  else if (r_tag r =? "пени")%string then
    Ok (Some (dict_modify Z.eqb (r_date r) (set_peni_id (r_id r)) db1))
  else Err ParsingError.

Definition recognized (r : receipt_row) : bool :=
  ((r_tag r =? "общая") || (r_tag r =? "пени"))%string.

Definition tagged (tag : string) (d : Z) (r : receipt_row) : bool :=
  (r_date r =? d) && (r_tag r =? tag)%string.

Definition last_id (tag : string) (d : Z) (rs : list receipt_row) : option string :=
  fold_left (fun o r => if tagged tag d r then Some (r_id r) else o) rs None.

Definition merged (acc d : Z) (rs : list receipt_row) : option Accrual :=
  match find (fun r => r_date r =? d) rs with
  | Some r =>
      Some (mkAccrual acc d (r_summa r) (r_peni r)
              (last_id "общая" d rs) (last_id "пени" d rs))
  | None => None
  end.

Definition option_list {A : Type} (o : option A) : list A :=
  match o with
  | Some a => [a]
  | None => []
  end.

Definition group_by_date (acc : Z) (rs : list receipt_row) : list Accrual :=
  flat_map (fun d => option_list (merged acc d rs))
    (fromkeys Z.eq_dec (map r_date rs)).

(** What the dictionary holds after the rows [rs]. *)
Definition grouped (acc : Z) (rs : list receipt_row) (db : db_t) : Prop :=
  map fst db = fromkeys Z.eq_dec (map r_date rs) /\
  forall d, dict_get Z.eqb d db = merged acc d rs.

(** [getitem data 0] then [date_attr]: the date the loop reads first. *)
Definition row_date (data : list string) : result Z :=
  (d0 <- getitem data 0 ;; date_attr d0)%result.

(** *** The limit, as a filter

    The loop a reader of "rows of dates not retained are skipped, rows
    of retained dates are still applied" would write: [continue] where
    [year_accruals] has [break]. *)
Fixpoint year_loop_skip (acc : Z) (limit : option Z) (db : db_t)
    (resp : list (list string)) : result db_t :=
  match resp with
  | [] => Ok db
  | data :: rest =>
      match year_step acc limit db data with
      | Ok (Some db') => year_loop_skip acc limit db' rest
      | Ok None => year_loop_skip acc limit db rest
      | Err e => Err e
      end
  end.

Definition year_accruals_skip (acc : Z) (limit : option Z)
    (resp : list (list string)) : result (list Accrual) :=
  (db <- year_loop_skip acc limit [] resp ;; Ok (map snd db))%result.

End WithUtils.

End Accruals.

(** ** Meters: [meters_history] *)

Module Meters.

Section WithUtils.
Context `{Utils}.

(** [meters.MeterValue(date, value, consumption, source)], hashable and
    compared field by field. *)
Record MeterValue : Type := mkMeterValue {
  date : Z;
  value : float;
  consumption : float;
  source : string
}.

(** [a == b] on readings: the fields are compared in turn, the floats
    with [==].  Every reading holds the floats of its own calls of
    [float], so that no two readings share a float object. *)
Definition MeterValue_eqb (a b : MeterValue) : bool :=
  (date a =? date b)
  && float_eqb (value a) (value b)
  && float_eqb (consumption a) (consumption b)
  && (source a =? source b)%string.

(** [meters.MeterInfoHistory(name, serial, history)] *)
Record MeterInfoHistory : Type := mkMeterInfoHistory {
  name : string;
  serial : string;
  history : list MeterValue
}.

Definition key_t : Type := (string * string)%type.

Definition key_eqb (a b : key_t) : bool :=
  ((fst a =? fst b) && (snd a =? snd b))%string.

Definition db_t : Type := list (key_t * list MeterValue).

(** [s.split(sep, 1)] when it has two parts. *)
Definition split_once (sep s : string) : option (string * string) :=
  match index 0 sep s with
  | Some i =>
      let j := (i + String.length sep)%nat in
      Some (substring 0 i s, substring j (String.length s - j) s)
  | None => None
  end.

Definition separator : string := ", счетчик №".

(** [unique_dates.add(d)] *)
Definition set_add (d : Z) (s : list Z) : list Z :=
  if existsb (Z.eqb d) s then s else s ++ [d].

(** The variables the [for] loop over one answer works on. *)
Record page_state : Type := mkPage {
  unique_dates : list Z;
  end_ : Z;
  db : db_t
}.

(** [db.setdefault(k, []).append(v)] *)
Definition db_append (k : key_t) (v : MeterValue) (d : db_t) : db_t :=
  dict_modify key_eqb k (fun l => l ++ [v]) (setdefault key_eqb k [] d).

(** The body of [for _, key, date, value, consumption, source in history]. *)
Definition row_step (st : page_state) (row : list string) : result page_state :=
  match row with
  | [_; key; date_s; value_s; consumption_s; source_s] =>
      (e <- str_to_date (substring 27 8 date_s) ;;
       let u := set_add e (unique_dates st) in
       c <- pyfloat consumption_s ;;
       if negb (float_truthy c) then Ok (mkPage u e (db st))
       else
         v <- pyfloat value_s ;;
         match split_once separator key with
         | Some k => Ok (mkPage u e (db_append k (mkMeterValue e v c source_s) (db st)))
         | None => Err ValueError
         end)%result
  | _ => Err ValueError
  end.

Fixpoint rows_loop (st : page_state) (rows : list (list string)) : result page_state :=
  match rows with
  | [] => Ok st
  | row :: rest =>
      match row_step st row with
      | Ok st' => rows_loop st' rest
      | Err e => Err e
      end
  end.

(** The date the loop reads in a row. *)
Definition meter_date (row : list string) : result Z :=
  match row with
  | [_; _; date_s; _; _; _] => str_to_date (substring 27 8 date_s)
  | _ => Err ValueError
  end.

(** What a turn of [while True] that ends the loop returns or raises
    on the answer [rows], with [e] and [d] the current [end] and [db]. *)
Definition last_turn (e : Z) (d : db_t) (rows : list (list string))
    : result db_t :=
  (st <- rows_loop (mkPage [] e d) rows ;; Ok (db st))%result.

(** [fetch n start end] is what the [n]-th call of
    [self._history("counters", account, start, end)] answers or raises. *)
Variable fetch : nat -> Z -> Z -> result (list (list string)).

(** What one turn of [while True] decides. *)
Inductive turn : Type :=
| Stop (d : db_t)
| Again (end' : Z) (d : db_t).

(** One turn of [while True]: the request, the assertion on the size of
    the answer, the rows, and the two exits. *)
Definition page_turn (n : nat) (start e : Z) (d : db_t) : result turn :=
  (rows <- fetch n start e ;;
   let num := List.length rows in
   if (25 <? num)%nat then Err AssertionError
   else
     st <- rows_loop (mkPage [] e d) rows ;;
     if (num <? 25)%nat then Ok (Stop (db st))
     else if (List.length (unique_dates st) =? 1)%nat then
       if start =? end_ st then Ok (Stop (db st))
       else Ok (Again (end_ st - 1) (db st))
     else Ok (Again (end_ st) (db st)))%result.

(** [while True], with [fuel] bounding the number of requests: [None]
    when the fuel runs out before the loop ends. *)
Fixpoint meters_loop (fuel n : nat) (start e : Z) (d : db_t)
    : option (result db_t) :=
  match fuel with
  | O => None
  | S fuel' =>
      match page_turn n start e d with
      | Ok (Stop d') => Some (Ok d')
      | Ok (Again e' d') => meters_loop fuel' (S n) start e' d'
      | Err ex => Some (Err ex)
      end
  end.

(** A portal that keeps to the window it is asked for and answers
    newest first: every row of an answer to [from=s, to=e] carries a
    date between [s] and [e], and no row is older than the last one. *)
Definition dated (lo hi : Z) (row : list string) : Prop :=
  exists d, meter_date row = Ok d /\ lo <= d <= hi.

Definition newest_first (rows : list (list string)) : Prop :=
  forall d, meter_date (last rows []) = Ok d ->
            Forall (fun row => exists d', meter_date row = Ok d' /\ d <= d') rows.

Definition well_behaved : Prop :=
  forall n s e rows,
    fetch n s e = Ok rows -> Forall (dated s e) rows /\ newest_first rows.

(** [tuple(MeterInfoHistory( *k, tuple(dict.fromkeys(v))) for k, v in db.items())] *)
Definition history_result (d : db_t) : list MeterInfoHistory :=
  map (fun kv => mkMeterInfoHistory (fst (fst kv)) (snd (fst kv))
                   (fromkeys_by MeterValue_eqb (snd kv))) d.

Definition _MIN_DATE : Z := 736695.  (* dt.date(2018, 1, 1) *)
Definition _MAX_DATE : Z := 766644.  (* dt.date(2099, 12, 31) *)

Definition date_or (d : option Z) (default : Z) : Z :=
  match d with
  | Some d' => d'
  | None => default
  end.

(** The body of [meters_history]. *)
Definition meters_history_body (fuel : nat) (start e : option Z)
    : option (result (list MeterInfoHistory)) :=
  let start := date_or start _MIN_DATE in
  let e := date_or e _MAX_DATE in
  if e <? start then Some (Err AssertionError)
  else
    match meters_loop fuel 0 start e [] with
    | Some (Ok d) => Some (Ok (history_result d))
    | Some (Err ex) => Some (Err ex)
    | None => None
    end.

End WithUtils.

End Meters.

(** ** The session: [ErkcClient], [_SEMAPHORE] and the [api] decorator

    One coroutine at a time: the calls of a program on its client are
    run one after the other, and a call that awaits the semaphore when
    it holds no permit waits for ever.  The interleavings of
    [asyncio.gather] are not modelled. *)

Module Session.

(** A cookie of the jar: its name and its [expires] attribute. *)
Record cookie : Type := mkCookie {
  key : string;
  expires : string
}.

(** A decoded JSON answer. *)
#[local] Unset Elimination Schemes.
Inductive json : Type :=
| JNull
| JBool (b : bool)
| JStr (s : string)
| JArr (items : list json)
| JObj (fields : list (string * json)).
#[local] Set Elimination Schemes.

(** What [async with self._cli.get(...) as x] binds: the URL reached,
    the redirects before it, and what [await x.text()], [await x.json()]
    and [await x.read()] give or raise. *)
Record response : Type := mkResponse {
  url : string;
  history : list string;
  text : result string;
  json_ : result json;
  read : result (list Byte.byte)
}.

Section WithUtils.
Context `{Builtins} `{!Parsers}.

(** A value sent as a query parameter or a form field. *)
Inductive pyval : Type :=
| PNone
| PStr (s : string)
| PInt (z : Z)
| PFloat (x : float).

Record request : Type := mkRequest {
  meth : string;
  path : string;
  data : list (string * pyval)
}.

(** The world outside the client, observed at successive instants: the
    cookie jar and the UTC clock when [_check_session] looks at them,
    and the answer of the portal to a request.  The functions are
    arbitrary: no property of the portal is assumed. *)
Record env : Type := mkEnv {
  cookie_jar : nat -> list cookie;
  utcnow : nat -> Z;
  server : nat -> request -> result response
}.

Record ErkcClient : Type := mkClient {
  _login : option string;
  _password : option string;
  _token : option string;
  _accounts : option (list Z);
  (** [self._cli.closed] *)
  cli_closed : bool
}.

(** The client, the value of [_SEMAPHORE], the instant, and the requests
    sent so far. *)
Record world : Type := mkWorld {
  self : ErkcClient;
  semaphore : nat;
  tick : nat;
  sent : list request
}.

(** [ErkcClient(login, password)] in a fresh process:
    [asyncio.Semaphore()] holds one permit. *)
Definition init (login password : option string) : world :=
  mkWorld (mkClient login password None None false) 1 0 [].

(** How an awaited call ends: it returns, it raises, or it waits for
    ever on the semaphore (nothing else runs that could release it). *)
Inductive outcome (A : Type) : Type :=
| Return (a : A) (w : world)
| Raise (e : exn) (w : world)
| Blocked (w : world).
Arguments Return {A} a w.
Arguments Raise {A} e w.
Arguments Blocked {A} w.

Definition final {A : Type} (o : outcome A) : world :=
  match o with
  | Return _ w => w
  | Raise _ w => w
  | Blocked w => w
  end.

Definition M (A : Type) : Type := world -> outcome A.

Definition ret {A : Type} (a : A) : M A := fun w => Return a w.

Definition bind {A B : Type} (m : M A) (k : A -> M B) : M B :=
  fun w =>
    match m w with
    | Return a w' => k a w'
    | Raise e w' => Raise e w'
    | Blocked w' => Blocked w'
    end.

Definition raise {A : Type} (e : exn) : M A := fun w => Raise e w.

Definition lift {A : Type} (r : result A) : M A :=
  fun w =>
    match r with
    | Ok a => Return a w
    | Err e => Raise e w
    end.

Definition gets {A : Type} (f : ErkcClient -> A) : M A :=
  fun w => Return (f (self w)) w.

Definition modify (f : ErkcClient -> ErkcClient) : M unit :=
  fun w => Return tt (mkWorld (f (self w)) (semaphore w) (tick w) (sent w)).

(** [try: body finally: fin] *)
Definition try_finally {A : Type} (body : M A) (fin : M unit) : M A :=
  fun w =>
    match body w with
    | Return a w1 =>
        match fin w1 with
        | Return _ w2 => Return a w2
        | Raise e w2 => Raise e w2
        | Blocked w2 => Blocked w2
        end
    | Raise e w1 =>
        match fin w1 with
        | Return _ w2 => Raise e w2
        | Raise e2 w2 => Raise e2 w2
        | Blocked w2 => Blocked w2
        end
    | Blocked w1 => Blocked w1
    end.

Declare Scope io_scope.
Delimit Scope io_scope with io.
Notation "x <- c1 ;; c2" := (bind c1 (fun x => c2))
  (at level 61, c1 at next level, right associativity) : io_scope.
Notation "c1 ;; c2" := (bind c1 (fun _ => c2))
  (at level 61, right associativity) : io_scope.

(** *** Fields and properties of the client *)

Definition is_none {A : Type} (o : option A) : bool :=
  match o with
  | Some _ => false
  | None => true
  end.

Definition closed (c : ErkcClient) : bool := cli_closed c.

Definition opened (c : ErkcClient) : bool :=
  negb (closed c || is_none (_token c)).

Definition authorized (c : ErkcClient) : bool :=
  negb (closed c || is_none (_accounts c)).

Definition accounts (c : ErkcClient) : result (list Z) :=
  match _accounts c with
  | None => Err AuthorizationRequired
  | Some a => Ok a
  end.

Definition account (c : ErkcClient) : result Z :=
  (x <- accounts c ;;
   match x with
   | a :: _ => Ok a
   | [] => Err AccountNotFound
   end)%result.

Definition _account (c : ErkcClient) (acc : option Z) : result Z :=
  match acc with
  | None => account c
  | Some a =>
      (x <- accounts c ;;
       if existsb (Z.eqb a) x then Ok a else Err AccountNotFound)%result
  end.

Definition set_token (t : option string) (c : ErkcClient) : ErkcClient :=
  mkClient (_login c) (_password c) t (_accounts c) (cli_closed c).

Definition set_accounts (a : option (list Z)) (c : ErkcClient) : ErkcClient :=
  mkClient (_login c) (_password c) (_token c) a (cli_closed c).

Definition set_credentials (l p : option string) (c : ErkcClient) : ErkcClient :=
  mkClient l p (_token c) (_accounts c) (cli_closed c).

(** [await self._cli.close()] *)
Definition cli_close (c : ErkcClient) : ErkcClient :=
  mkClient (_login c) (_password c) (_token c) (_accounts c) true.

Definition _reset (c : ErkcClient) : ErkcClient :=
  mkClient (_login c) (_password c) None None (cli_closed c).

(** *** The semaphore *)

(** [await _SEMAPHORE.acquire()] *)
Definition acquire : M unit :=
  fun w =>
    match semaphore w with
    | O => Blocked w
    | S n => Return tt (mkWorld (self w) n (tick w) (sent w))
    end.

(** [_SEMAPHORE.release()] *)
Definition release : M unit :=
  fun w => Return tt (mkWorld (self w) (S (semaphore w)) (tick w) (sent w)).

(** *** Requests *)

Variable E : env.

Definition _request (m p : string) (d : list (string * pyval)) : M response :=
  fun w =>
    let req := mkRequest m p d in
    let w' := mkWorld (self w) (semaphore w) (S (tick w)) (sent w ++ [req]) in
    match server E (tick w) req with
    | Ok x => Return x w'
    | Err e => Raise e w'
    end.

Definition _get (p : string) (params : list (string * pyval)) : M response :=
  _request "GET" p params.

Definition pv (s : option string) : pyval :=
  match s with
  | Some s' => PStr s'
  | None => PNone
  end.

Definition _post (p : string) (d : list (string * pyval)) : M response :=
  (t <- gets _token ;;
   _request "POST" p (d ++ [("_token", pv t)]))%io.

Definition str_of_int (z : Z) : string := NilZero.string_of_int (Z.to_int z).

Definition _ajax (func : string) (acc : option Z)
    (params : list (string * pyval)) : M json :=
  (c <- gets (fun c => c) ;;
   a <- lift (_account c acc) ;;
   x <- _get ("/ajax/" ++ str_of_int a ++ "/" ++ func)%string params ;;
   lift (json_ x))%io.

Definition _update_accounts (html : string) : M unit :=
  (a <- lift (parse_accounts html) ;;
   modify (set_accounts (Some a)))%io.

(** *** [_check_session] *)

(** The [for] loop over the jar: [Ok true] is the [return] on a session
    cookie that has not expired, [Ok false] is the [break] on an expired
    one or the end of the jar. *)
Fixpoint live_cookie (now : Z) (jar : list cookie) : result bool :=
  match jar with
  | [] => Ok false
  | c :: rest =>
      if (key c =? "laravel_session")%string then
        (e <- strptime (expires c) ;; Ok (negb (e <=? now)))%result
      else live_cookie now rest
  end.

Definition _check_session : M unit :=
  fun w =>
    let w' := mkWorld (self w) (semaphore w) (S (tick w)) (sent w) in
    match live_cookie (utcnow E (tick w)) (cookie_jar E (tick w)) with
    | Ok true => Return tt w'
    | Ok false => modify _reset w'
    | Err e => Raise e w'
    end.

(** *** [open] and [close] *)

(** [@api(check_only=True)] *)
Definition api_check_only {A : Type} (func : M A) : M A :=
  (_check_session ;; func)%io.

Definition open_body (login password : option string) (auth : bool) : M unit :=
  (o <- gets opened ;;
   (if negb o then
      acquire ;;
      x <- _get "/login" [] ;;
      html <- lift (text x) ;;
      t <- lift (parse_token html) ;;
      modify (set_token (Some t))
    else ret tt) ;;
   a <- gets authorized ;;
   if negb auth || a then ret tt
   else
     l0 <- gets _login ;;
     p0 <- gets _password ;;
     let login := str_or login l0 in
     let password := str_or password p0 in
     if negb (str_truthy login && str_truthy password) then
       raise AuthorizationError
     else
       x <- _post "/login" [("login", pv login); ("password", pv password)] ;;
       h0 <- lift (getitem (history x) 0) ;;
       if (url x =? h0)%string then raise AuthorizationError
       else
         html <- lift (text x) ;;
         _update_accounts html ;;
         modify (set_credentials login password))%io.

Definition open (login password : option string) (auth : bool) : M unit :=
  api_check_only (open_body login password auth).

Definition close_body (close_transport : bool) : M unit :=
  try_finally
    (a <- gets authorized ;;
     if a then
       x <- _get "/logout" [] ;;
       _ <- lift (text x) ;;
       modify _reset
     else ret tt)%io
    ((if close_transport then modify cli_close else ret tt) ;;
     release)%io.

Definition close (close_transport : bool) : M unit :=
  api_check_only (close_body close_transport).

(** *** The decorator *)

(** [api(auth_required=..., check_only=..., public=...)(func)].  The
    assignment [auth_required = False] of a public operation lands in a
    variable of the decorator that only this operation reads, and it is
    redone at each call, so it is local here. *)
Definition api {A : Type} (auth_required check_only public : bool)
    (func : M A) : M A :=
  (_check_session ;;
   if check_only then func
   else
     let auth_required := if public then false else auth_required in
     (if public then close false else ret tt) ;;
     o <- gets opened ;;
     (if negb o then open None None auth_required else ret tt) ;;
     a <- gets authorized ;;
     (if auth_required && negb a then open None None true else ret tt) ;;
     func)%io.

(** *** The context manager *)

Definition aenter : M unit :=
  fun w =>
    match open None None true w with
    | Return a w1 => Return a w1
    | Raise e w1 =>
        match close true w1 with
        | Return _ w2 => Raise e w2
        | Raise e2 w2 => Raise e2 w2
        | Blocked w2 => Blocked w2
        end
    | Blocked w1 => Blocked w1
    end.

Definition aexit : M unit := close true.

(** *** Operations behind the decorator *)

(** [json["file"]], then its use as the path of a request. *)
Definition json_file (j : json) : result string :=
  match j with
  | JObj fields =>
      match dict_get String.eqb "file" fields with
      | Some (JStr s) => Ok s
      | Some _ => Err TypeError
      | None => Err KeyError
      end
  | _ => Err TypeError
  end.

Definition download_pdf_body (accrual : Accruals.Accrual) (peni : bool)
    : M (list Byte.byte) :=
  let id := if peni then Accruals.peni_id accrual else Accruals.bill_id accrual in
  if negb (str_truthy id) then ret []
  else
    fun w =>
      match _ajax "getReceipt" (Some (Accruals.account accrual))
              [("receiptId", pv id)] w with
      | Return j w1 =>
          (p <- lift (json_file j) ;;
           x <- _get p [] ;;
           lift (read x))%io w1
      | Raise _ w1 => Return [] w1
      | Blocked w1 => Blocked w1
      end.

Definition download_pdf (accrual : Accruals.Accrual) (peni : bool)
    : M (list Byte.byte) :=
  api true false false (download_pdf_body accrual peni).

(** [account.PublicAccountInfo(account, address, balance, peni)] *)
Record PublicAccountInfo : Type := mkPublicAccountInfo {
  pa_account : Z;
  pa_address : string;
  pa_balance : float;
  pa_peni : float
}.

Definition account_add_body (acc : Z + PublicAccountInfo)
    (last_bill_amount : float) : M unit :=
  let last_bill_amount :=
    match acc with
    | inl _ => last_bill_amount
    | inr info =>
        if float_truthy last_bill_amount then last_bill_amount
        else pa_balance info
    end in
  let acc :=
    match acc with
    | inl a => a
    | inr info => pa_account info
    end in
  (c <- gets (fun c => c) ;;
   l <- lift (accounts c) ;;
   if existsb (Z.eqb acc) l then ret tt
   else if float_le0 last_bill_amount then raise ValueError
   else
     x <- _post "/account/add"
            [("account", PInt acc); ("summ", PFloat last_bill_amount)] ;;
     html <- lift (text x) ;;
     _update_accounts html ;;
     c' <- gets (fun c => c) ;;
     l' <- lift (accounts c') ;;
     if negb (existsb (Z.eqb acc) l') then raise AccountBindingError
     else ret tt)%io.

Definition account_add (acc : Z + PublicAccountInfo)
    (last_bill_amount : float) : M unit :=
  api true false false (account_add_body acc last_bill_amount).

Definition account_rm_body (acc : Z) : M unit :=
  (c <- gets (fun c => c) ;;
   l <- lift (accounts c) ;;
   if negb (existsb (Z.eqb acc) l) then ret tt
   else
     x <- _post ("/account/" ++ str_of_int acc ++ "/remove")%string [] ;;
     html <- lift (text x) ;;
     _update_accounts html ;;
     c' <- gets (fun c => c) ;;
     l' <- lift (accounts c') ;;
     if existsb (Z.eqb acc) l' then raise AccountBindingError
     else ret tt)%io.

Definition account_rm (acc : Z) : M unit :=
  api true false false (account_rm_body acc).

Definition pub_meters_info_body (acc : Z) : M string :=
  (x <- _get ("/counters/" ++ str_of_int acc)%string [] ;;
   lift (text x))%io.

(** [pub_meters_info], up to the call of [parse_meters] on the page. *)
Definition pub_meters_info (acc : Z) : M string :=
  api true false true (pub_meters_info_body acc).

(** *** Runs *)

(** The calls a program makes on its client, one after the other. *)
Inductive call : Type :=
| CheckSession
| Open (login password : option string) (auth : bool)
| Close (close_transport : bool)
| AEnter
| AExit
| DownloadPdf (accrual : Accruals.Accrual) (peni : bool)
| AccountAdd (acc : Z + PublicAccountInfo) (last_bill_amount : float)
| AccountRm (acc : Z)
| PubMetersInfo (acc : Z).

Definition discard {A : Type} (m : M A) : M unit :=
  (_ <- m ;; ret tt)%io.

Definition run_call (c : call) : M unit :=
  match c with
  | CheckSession => _check_session
  | Open l p a => open l p a
  | Close t => close t
  | AEnter => aenter
  | AExit => aexit
  | DownloadPdf a p => discard (download_pdf a p)
  | AccountAdd a x => account_add a x
  | AccountRm a => account_rm a
  | PubMetersInfo a => discard (pub_meters_info a)
  end.

(** A program that goes on after an exception; a call that waits for
    ever ends the run. *)
Fixpoint run (cs : list call) (w : world) : outcome unit :=
  match cs with
  | [] => Return tt w
  | c :: rest =>
      match run_call c w with
      | Return _ w' => run rest w'
      | Raise _ w' => run rest w'
      | Blocked w' => Blocked w'
      end
  end.

(** *** Invariants of the session *)

(** The invariant as the specification words it, with "closed" read as
    "not [opened]". *)
Definition stated_inv (c : ErkcClient) : Prop :=
  (_token c = None <-> opened c = false) /\
  (_accounts c = None <-> authorized c = false).

(** Accounts are only known on a session that has a token. *)
Definition sound (c : ErkcClient) : Prop :=
  _token c = None -> _accounts c = None.

(** What holds of every client: the two implications from left to
    right, [sound], and the two converses while the transport is not
    closed. *)
Definition session_inv (c : ErkcClient) : Prop :=
  (_token c = None -> opened c = false) /\
  (_accounts c = None -> authorized c = false) /\
  sound c /\
  (closed c = false ->
   (opened c = false -> _token c = None) /\
   (authorized c = false -> _accounts c = None)).

(** [m] keeps [sound], however it ends. *)
Definition keeps {A : Type} (m : M A) : Prop :=
  forall w, sound (self w) -> sound (self (final (m w))).


(** [GET /login] and [GET /logout], as [open] and [close] send them. *)
Definition get_login : request := mkRequest "GET" "/login" [].
Definition get_logout : request := mkRequest "GET" "/logout" [].

(** The guard of the decorator alone. *)
Definition guard (auth_required public : bool) : M unit :=
  api auth_required false public (ret tt).

End WithUtils.

Arguments Return {_ A} a w.
Arguments Raise {_ A} e w.
Arguments Blocked {_ A} w.

End Session.

(** ** Stand-ins for the imported modules

    Small functions in the place of [utils.py] and [parsers.py], to run
    the model on sample answers: a float or a date is written in
    decimal, the login page is its token, the accounts page is the
    number of its one account. *)

Module Sample.

Definition parse_Z (s : string) : result Z :=
  match NilZero.int_of_string s with
  | Some i => Ok (Z.of_int i)
  | None => Err ValueError
  end.

Definition builtins : Builtins := {|
  float := Z;
  float_eqb := Z.eqb;
  float_truthy := fun x => negb (x =? 0);
  float_le0 := fun x => x <=? 0;
  pyfloat := parse_Z;
  strptime := parse_Z
|}.

Definition utils : @Utils builtins :=
  @Build_Utils builtins
    parse_Z                                          (* to_float *)
    parse_Z                                          (* date_attr *)
    (fun s => Ok s)                                  (* data_attr *)
    parse_Z                                          (* str_to_date *)
    (fun d => NilZero.string_of_int (Z.to_int d)).   (* date_to_str *)

Definition parsers : Parsers := {|
  parse_token := fun html =>
    if (html =? "")%string then Err ParsingError else Ok html;
  parse_accounts := fun html =>
    if (html =? "")%string then Ok []
    else match parse_Z html with
         | Ok a => Ok [a]
         | Err _ => Err ParsingError
         end
|}.

(** A month accrual keeps its floats; the first one is its total. *)
Definition month_accruals : @MonthAccruals builtins :=
  @Build_MonthAccruals builtins
    (Z * Z * list Z)%type
    (fun acc d fs =>
       match fs with
       | [] => Err TypeError
       | _ => Ok (acc, d, fs)
       end)
    (fun a => hd 0 (snd a)).

Definition accrual := @Accruals.mkAccrual builtins.
Definition reading := @Meters.mkMeterValue builtins.



(** A receipt of an older date between the two receipts of a date. *)
Definition receipts_interleaved : list (list string) :=
  [["738156"; "500"; "3"; "общая"; ""; "A"];
   ["738125"; "400"; "0"; "общая"; ""; "X"];
   ["738156"; "500"; "3"; "пени"; ""; "B"]].

(** A row of the counters history: the date sits at [27:35]. *)
Definition counter_row : list string :=
  [""; "Холодная вода, счетчик №123";
   "<span data-sort='20180106'>00736700</span>"; "10"; "2"; "сайт"].

Definition reading_1 : @Meters.MeterValue builtins :=
  reading 736700 10 2 "сайт".

Definition reading_2 : @Meters.MeterValue builtins :=
  reading 736731 12 2 "сайт".

(** *** A portal

    The jar is empty before the first request and holds a session
    cookie that expires at second 2000 afterwards; it is second 1000.
    The login page read at instant [t] carries the token [login_page t];
    a login is accepted and redirected to the page of account 42.  What
    [/logout] and the file of a receipt answer are left open. *)

Definition page (u : string) (h : list string) (html : string)
    : Session.response :=
  Session.mkResponse u h (Ok html) (Err ValueError) (Ok []).

Definition receipt_file : Session.response :=
  Session.mkResponse "/ajax/42/getReceipt" [] (Err ValueError)
    (Ok (Session.JObj [("file", Session.JStr "/receipt/A.pdf")])) (Ok []).

Definition portal (login_page : nat -> string)
    (logout file : result Session.response) : @Session.env builtins :=
  Session.mkEnv
    (fun t => match t with
              | O => []
              | S _ => [Session.mkCookie "laravel_session" "2000"]
              end)
    (fun _ => 1000)
    (fun t req =>
       let m := Session.meth req in
       let p := Session.path req in
       if (m =? "GET")%string && (p =? "/login")%string then
         Ok (page "/login" [] (login_page t))
       else if (m =? "POST")%string && (p =? "/login")%string then
         Ok (page "/account/42" ["/login"] "42")
       else if (p =? "/logout")%string then logout
       else if (p =? "/ajax/42/getReceipt")%string then Ok receipt_file
       else if (p =? "/receipt/A.pdf")%string then file
       else if (p =? "/counters/5")%string then Ok (page p [] "meters")
       else Err ClientError).

(** The token of the login page read at instant [t] is [t] in decimal. *)
Definition token_of (t : nat) : string :=
  NilZero.string_of_uint (Nat.to_uint t).

Definition healthy : @Session.env builtins :=
  portal token_of (Ok (page "/login" ["/logout"] "")) (Ok (page "/receipt/A.pdf" [] "")).

(** The portal when [/logout] cannot be reached. *)
Definition logout_down : @Session.env builtins :=
  portal token_of (Err ClientError) (Ok (page "/receipt/A.pdf" [] "")).

(** The portal when the file of a receipt cannot be fetched. *)
Definition file_down : @Session.env builtins :=
  portal token_of (Ok (page "/login" ["/logout"] "")) (Err ClientError).


(** The healthy portal, with a clock that passes the expiry of the
    session cookie after the first [open]. *)
Definition expiring : @Session.env builtins :=
  Session.mkEnv (Session.cookie_jar healthy)
    (fun t => if (t <? 2)%nat then 1000 else 3000)
    (Session.server healthy).

Definition user : @Session.world builtins :=
  Session.init (Some "user@example.org") (Some "secret").

Definition anonymous : @Session.world builtins := Session.init None None.

(** The session of [user] once [open] has returned on the portal [E]. *)
Definition logged_in (E : @Session.env builtins) : @Session.world builtins :=
  Session.final (@Session.open builtins parsers E None None true user).

(** An anonymous session once [open(auth=False)] has returned. *)
Definition visiting (E : @Session.env builtins) : @Session.world builtins :=
  Session.final (@Session.open builtins parsers E None None false anonymous).

Definition receipt_A : @Accruals.Accrual builtins :=
  accrual 42 738156 500 3 (Some "A") None.

End Sample.

(** ** Payments: [payments_history] *)

(** [payment.Payment]: built from a date, a float and a text;
    [client.py] reads its [summa]. *)
Class Payments `{Builtins} : Type := {
  Payment : Type;
  (** [Payment(date, summa, text)] *)
  mkPayment : Z -> float -> string -> result Payment;
  payment_summa : Payment -> float
}.

Module PaymentsHistory.

Section WithUtils.
Context `{Utils} `{!Payments}.

(** [Payment(date_attr(x), to_float(y), z)] for a row [x, y, z]. *)
Definition payment_row (row : list string) : result Payment :=
  match row with
  | [x; y; z] =>
      (d <- date_attr x ;; s <- to_float y ;; mkPayment d s z)%result
  | _ => Err ValueError
  end.

(** The two generators of [payments_history], consumed by [tuple]: each
    row is decoded, then kept when its [summa] is not zero; [out] is
    the tuple so far. *)
Fixpoint payments_loop (resp : list (list string)) (out : list Payment)
    : result (list Payment) :=
  match resp with
  | [] => Ok out
  | row :: rest =>
      match payment_row row with
      | Ok p =>
          payments_loop rest
            (if float_truthy (payment_summa p) then out ++ [p] else out)
      | Err e => Err e
      end
  end.

(** [payments_history] from the decoded answer of [paymentsHistory]. *)
Definition payments_history_rows (resp : list (list string))
    : result (list Payment) :=
  payments_loop resp [].

Definition decodes (row : list string) (p : Payment) : Prop :=
  payment_row row = Ok p.

Definition paid (p : Payment) : bool := float_truthy (payment_summa p).

End WithUtils.

End PaymentsHistory.

(** ** Meter values: [_set_meters_values] and [pub_set_meters_values] *)

(** [meters.PublicMeterInfo] with its [value] and its truth value, the
    parser of the page of the meters, [>] on floats and [int(s)]. *)
Class MeterPages `{Builtins} : Type := {
  PublicMeterInfo : Type;
  meter_value : PublicMeterInfo -> float;
  meter_truthy : PublicMeterInfo -> bool;
  parse_meters : string -> result (list (Z * PublicMeterInfo));
  (** [x > y] *)
  float_gt : float -> float -> bool;
  (** [int(s)] *)
  pyint : string -> result Z
}.

Module Submission.

Section WithUtils.
Context `{Builtins} `{!Parsers} `{!MeterPages}.
Variable E : Session.env.

Fixpoint has_slash (s : string) : bool :=
  match s with
  | EmptyString => false
  | String c s' => (c =? "/")%char || has_slash s'
  end.

(** [path.rsplit("/", 1)[-1]] *)
Fixpoint last_segment (s : string) : string :=
  match s with
  | EmptyString => EmptyString
  | String c s' =>
      if has_slash s' then last_segment s'
      else if (c =? "/")%char then s' else s
  end.

(** [data[k] = v] *)
Fixpoint dict_set {V : Type} (k : string) (v : V) (d : list (string * V))
    : list (string * V) :=
  match d with
  | [] => [(k, v)]
  | (k', v') :: d' =>
      if (k' =? k)%string then (k', v) :: d' else (k', v') :: dict_set k v d'
  end.

(** [f"counters[{id}_0][{name}]"] *)
Definition counter_field (id : Z) (name : string) : string :=
  ("counters[" ++ Session.str_of_int id ++ "_0][" ++ name ++ "]")%string.

(** [data = {}], then [data["ls"] = int(path.rsplit("/", 1)[-1])] when
    the path is not one of an account. *)
Definition account_field (p : string) : result (list (string * Session.pyval)) :=
  if prefix "/account" p then Ok []
  else (n <- pyint (last_segment p) ;; Ok [("ls", Session.PInt n)])%result.

(** [if m := meters.get(id): if value > m.value: ...] *)
Definition acceptable (meters : list (Z * PublicMeterInfo))
    (iv : Z * float) : bool :=
  match dict_get Z.eqb (fst iv) meters with
  | Some m => meter_truthy m && float_gt (snd iv) (meter_value m)
  | None => false
  end.

(** The loop [for id, value in values.items()]. *)
Fixpoint fill (meters : list (Z * PublicMeterInfo)) (values : list (Z * float))
    (d : list (string * Session.pyval))
    : result (list (string * Session.pyval)) :=
  match values with
  | [] => Ok d
  | (id, value) :: rest =>
      match dict_get Z.eqb id meters with
      | Some m =>
          if meter_truthy m then
            if float_gt value (meter_value m) then
              fill meters rest
                (dict_set (counter_field id "tarif") (Session.PInt 0)
                   (dict_set (counter_field id "rawId") (Session.PInt id)
                      (dict_set (counter_field id "value")
                         (Session.PFloat value) d)))
            else Err ValueError
          else Err ValueError
      | None => Err ValueError
      end
  end.

Definition _set_meters_values (p : string) (values : list (Z * float))
    : Session.M unit :=
  match values with
  | [] => Session.ret tt
  | _ :: _ =>
      Session.bind (Session._get E p []) (fun x =>
      Session.bind (Session.lift (Session.text x)) (fun html =>
      Session.bind (Session.lift (parse_meters html)) (fun meters =>
      Session.bind (Session.lift (account_field p)) (fun d0 =>
      Session.bind (Session.lift (fill meters values d0)) (fun d =>
      Session.bind (Session._post E p d) (fun _ => Session.ret tt))))))
  end.

Definition pub_set_meters_values (acc : Z) (values : list (Z * float))
    : Session.M unit :=
  Session.api E true false true
    (_set_meters_values ("/counters/" ++ Session.str_of_int acc)%string values).

End WithUtils.

End Submission.

(** ** More on the session *)

Module SessionMore.

Section WithUtils.
Context `{Builtins}.

(** The world after a look at the cookie jar and the clock. *)
Definition ticked (w : Session.world) : Session.world :=
  Session.mkWorld (Session.self w) (Session.semaphore w)
    (S (Session.tick w)) (Session.sent w).

(** The world when the session has been forgotten. *)
Definition forgotten (w : Session.world) : Session.world :=
  Session.mkWorld (Session._reset (Session.self w)) (Session.semaphore w)
    (Session.tick w) (Session.sent w).

Definition is_session (c : Session.cookie) : bool :=
  (Session.key c =? "laravel_session")%string.

(** The effective login and password of [open]. *)
Definition effective (given cached : option string) : option string :=
  str_or given cached.

(** The form [open] posts to [/login]. *)
Definition login_post (login password : option string) (token : string)
    : Session.request :=
  Session.mkRequest "POST" "/login"
    [("login", Session.pv login); ("password", Session.pv password);
     ("_token", Session.PStr token)].

(** The request [_ajax] sends for the account [a]. *)
Definition ajax_request (a : Z) (func : string)
    (params : list (string * Session.pyval)) : Session.request :=
  Session.mkRequest "GET"
    ("/ajax/" ++ Session.str_of_int a ++ "/" ++ func)%string params.

(** The account a binding call is about. *)
Definition account_of (acc : Z + Session.PublicAccountInfo) : Z :=
  match acc with
  | inl a => a
  | inr info => Session.pa_account info
  end.

(** The amount [account_add] sends. *)
Definition amount_of (acc : Z + Session.PublicAccountInfo) (amount : float)
    : float :=
  match acc with
  | inl _ => amount
  | inr info =>
      if float_truthy amount then amount else Session.pa_balance info
  end.

(** [a] is one of the accounts bound to the client. *)
Definition bound (a : Z) (c : Session.ErkcClient) : Prop :=
  exists l, Session._accounts c = Some l /\ In a l.

End WithUtils.

End SessionMore.

(** ** More stand-ins *)

Module SampleMore.

(** A payment keeps its date, its amount and its text. *)
Definition payments : @Payments Sample.builtins :=
  @Build_Payments Sample.builtins (Z * Z * string)%type
    (fun d s z => Ok (d, s, z))
    (fun p => snd (fst p)).

(** The page of the meters lists meter 1 at 10 and meter 2 at 20. *)
Definition meter_pages : @MeterPages Sample.builtins :=
  @Build_MeterPages Sample.builtins Z
    (fun m => m)
    (fun _ => true)
    (fun html =>
       if (html =? "meters")%string then Ok [(1, 10); (2, 20)]
       else Err ParsingError)
    Z.gtb
    Sample.parse_Z.

(** A portal that answers every history request with the same three
    rows, dated 736702, 736701 and 736700. *)
Definition counter_row_on (d : string) : list string :=
  [""; "Холодная вода, счетчик №123";
   ("<span data-sort='20180106'>" ++ d ++ "</span>")%string;
   "10"; "2"; "сайт"].

(** The healthy portal, which also binds account 43 (its page then
    lists 43) and unbinds account 42 (its page then lists nothing). *)
Definition binding : @Session.env Sample.builtins :=
  Session.mkEnv (Session.cookie_jar Sample.healthy)
    (Session.utcnow Sample.healthy)
    (fun t req =>
       let p := Session.path req in
       if (p =? "/account/add")%string then Ok (Sample.page p [] "43")
       else if (p =? "/account/42/remove")%string then Ok (Sample.page p [] "")
       else Session.server Sample.healthy t req).

(** The healthy portal, except that it answers a login at the address
    of the login form. *)
Definition rejecting : @Session.env Sample.builtins :=
  Session.mkEnv (Session.cookie_jar Sample.healthy)
    (Session.utcnow Sample.healthy)
    (fun t req =>
       if (Session.meth req =? "POST")%string
          && (Session.path req =? "/login")%string
       then Ok (Sample.page "/login" ["/login"] "")
       else Session.server Sample.healthy t req).

(** A receipt of an account that is not bound to [user]. *)
Definition receipt_of_stranger : @Accruals.Accrual Sample.builtins :=
  Sample.accrual 99 738156 500 3 (Some "A") None.

(** A full answer within the window from 736700 to 736701, oldest
    first: 24 readings of the first day, then one of the last day. *)
Definition oldest_first_page : list (list string) :=
  repeat (counter_row_on "00736700") 24 ++ [counter_row_on "00736701"].

(** An answer in which the first reading comes back after another. *)
Definition page_with_repeat : list (list string) :=
  [counter_row_on "00736731"; counter_row_on "00736700";
   counter_row_on "00736731"].

End SampleMore.

(** ** Floats with a NaN

    The stand-ins again, with floats that are a decimal number or NaN:
    [float("nan")] is NaN, which is truthy and equal to nothing. *)

Module SampleNaN.

Definition parse_float (s : string) : result (option Z) :=
  if (s =? "nan")%string then Ok None
  else
    match Sample.parse_Z s with
    | Ok z => Ok (Some z)
    | Err e => Err e
    end.

Definition builtins : Builtins := {|
  float := option Z;
  float_eqb := fun a b =>
    match a, b with
    | Some x, Some y => x =? y
    | _, _ => false
    end;
  float_truthy := fun a =>
    match a with
    | Some x => negb (x =? 0)
    | None => true
    end;
  float_le0 := fun a =>
    match a with
    | Some x => x <=? 0
    | None => false
    end;
  pyfloat := parse_float;
  strptime := Sample.parse_Z
|}.

Definition utils : @Utils builtins :=
  @Build_Utils builtins
    parse_float                                      (* to_float *)
    Sample.parse_Z                                   (* date_attr *)
    (fun s => Ok s)                                  (* data_attr *)
    Sample.parse_Z                                   (* str_to_date *)
    (fun d => NilZero.string_of_int (Z.to_int d)).   (* date_to_str *)

(** A row of the counters history whose reading is NaN. *)
Definition nan_row : list string :=
  [""; "Холодная вода, счетчик №123";
   "<span data-sort='20180106'>00736700</span>"; "nan"; "2"; "сайт"].

Definition nan_reading : @Meters.MeterValue builtins :=
  @Meters.mkMeterValue builtins 736700 None (Some 2) "сайт".

End SampleNaN.

(** ** More on the meters *)

Module MetersMore.

Section WithUtils.
Context `{Builtins}.

(** A reading that records a consumption. *)
Definition consumed (v : Meters.MeterValue) : Prop :=
  float_truthy (Meters.consumption v) = true.

(** A dictionary of readings with one entry per meter and no reading
    without consumption. *)
Definition tidy (d : Meters.db_t) : Prop :=
  NoDup (map fst d) /\ Forall (fun kv => Forall consumed (snd kv)) d.

(** The meter of a history. *)
Definition meter_of (h : Meters.MeterInfoHistory) : string * string :=
  (Meters.name h, Meters.serial h).

(** No reading of the list compares equal to a later one. *)
Definition apart (l : list Meters.MeterValue) : Prop :=
  ForallOrdPairs (fun k v => Meters.MeterValue_eqb k v = false) l.

End WithUtils.

(** The portal asked for the meters of two days, 736700 and 736701,
    with 25 readings on each: it answers the readings of the last day
    of the window, and nothing outside these two days. *)
Definition two_full_days : nat -> Z -> Z -> result (list (list string)) :=
  fun _ s e =>
    if (s =? 736700) && (e =? 736701) then
      Ok (repeat (SampleMore.counter_row_on "00736701") 25)
    else if (s =? 736700) && (e =? 736700) then
      Ok (repeat (SampleMore.counter_row_on "00736700") 25)
    else Ok [].

End MetersMore.

(** * Properties *)

(** ** Dictionaries *)

Section DictFacts.
Context {K V : Type}.
Variable eqb : K -> K -> bool.
Hypothesis eqb_spec : forall a b, reflect (a = b) (eqb a b).

Lemma dict_get_In k (d : list (K * V)) :
  dict_get eqb k d = None <-> ~ In k (map fst d).
Proof.
  induction d as [| [k' v] d IH]; cbn.
  - tauto.
  - destruct (eqb_spec k' k) as [-> | Hne].
    + split; [discriminate | tauto].
    + rewrite IH. tauto.
Qed.

Lemma dict_mem_In k (d : list (K * V)) :
  dict_mem eqb k d = true <-> In k (map fst d).
Proof.
  unfold dict_mem. pose proof (dict_get_In k d) as Hget.
  destruct (dict_get eqb k d).
  - split; [intros _ | reflexivity].
    destruct (in_dec (fun a b => reflect_dec _ _ (eqb_spec a b)) k (map fst d))
      as [Hin | Hout]; [assumption |].
    apply Hget in Hout. discriminate.
  - split; [discriminate |]. intros Hin. now apply Hget in Hin.
Qed.

Lemma dict_get_app k (d1 d2 : list (K * V)) :
  dict_get eqb k (d1 ++ d2) =
  match dict_get eqb k d1 with
  | Some v => Some v
  | None => dict_get eqb k d2
  end.
Proof.
  induction d1 as [| [k' v] d1 IH]; cbn; [reflexivity |].
  now destruct (eqb k' k).
Qed.

Lemma dict_get_modify_same k f (d : list (K * V)) :
  dict_get eqb k (dict_modify eqb k f d) = option_map f (dict_get eqb k d).
Proof.
  induction d as [| [k' v] d IH]; cbn; [reflexivity |].
  destruct (eqb k' k) eqn:Hk; cbn; now rewrite Hk.
Qed.

Lemma dict_get_modify_other k k' f (d : list (K * V)) :
  k <> k' ->
  dict_get eqb k' (dict_modify eqb k f d) = dict_get eqb k' d.
Proof.
  intros Hne. induction d as [| [k0 v] d IH]; cbn; [reflexivity |].
  destruct (eqb_spec k0 k) as [-> | Hk]; cbn.
  - destruct (eqb_spec k k'); [contradiction | reflexivity].
  - now destruct (eqb k0 k').
Qed.

Lemma dict_modify_keys k f (d : list (K * V)) :
  map fst (dict_modify eqb k f d) = map fst d.
Proof.
  induction d as [| [k' v] d IH]; cbn; [reflexivity |].
  destruct (eqb k' k); cbn; [reflexivity | now rewrite IH].
Qed.

Lemma dict_modify_length k f (d : list (K * V)) :
  List.length (dict_modify eqb k f d) = List.length d.
Proof.
  rewrite <- (length_map fst), dict_modify_keys. apply length_map.
Qed.

Lemma dict_values_by_keys (d : list (K * V)) :
  NoDup (map fst d) ->
  map snd d =
  flat_map (fun k => match dict_get eqb k d with
                     | Some v => [v]
                     | None => []
                     end) (map fst d).
Proof.
  induction d as [| [k v] d IH]; cbn; [reflexivity |].
  intros Hnd. inversion Hnd as [| ? ? Hout Hnd']; subst.
  destruct (eqb_spec k k) as [_ | Hkk]; [| contradiction].
  cbn. f_equal. rewrite (IH Hnd').
  clear IH Hnd Hnd'. revert Hout.
  generalize (map fst d) as ks.
  induction ks as [| k0 ks IHks]; cbn; intros Hout; [reflexivity |].
  destruct (eqb_spec k k0) as [-> | Hne]; [tauto |].
  f_equal. apply IHks. tauto.
Qed.

End DictFacts.

Section FromKeysFacts.
Context {A : Type}.
Variable eq_dec : forall x y : A, {x = y} + {x <> y}.

Lemma fromkeys_snoc (l : list A) (x : A) :
  fromkeys eq_dec (l ++ [x]) = dict_add eq_dec (fromkeys eq_dec l) x.
Proof.
  unfold fromkeys. now rewrite fold_left_app.
Qed.

Lemma fromkeys_In (l : list A) :
  forall x, In x (fromkeys eq_dec l) <-> In x l.
Proof.
  induction l as [| y l IH] using rev_ind; intros x; [reflexivity |].
  rewrite fromkeys_snoc, in_app_iff. unfold dict_add.
  destruct (in_dec eq_dec y (fromkeys eq_dec l)) as [Hin | Hout].
  - apply IH in Hin. rewrite IH. cbn. intuition (subst; auto).
  - rewrite in_app_iff, IH. reflexivity.
Qed.

Lemma fromkeys_NoDup (l : list A) : NoDup (fromkeys eq_dec l).
Proof.
  induction l as [| y l IH] using rev_ind; [constructor |].
  rewrite fromkeys_snoc. unfold dict_add.
  destruct (in_dec eq_dec y (fromkeys eq_dec l)) as [Hin | Hout];
    [assumption |].
  apply NoDup_app; [assumption | repeat constructor; intros [] |].
  intros x Hx [<- | []]. contradiction.
Qed.

End FromKeysFacts.

Section FromKeysByFacts.
Context {A : Type}.
Variable eqb : A -> A -> bool.

Lemma fromkeys_by_snoc (l : list A) (x : A) :
  fromkeys_by eqb (l ++ [x]) = dict_add_by eqb (fromkeys_by eqb l) x.
Proof.
  unfold fromkeys_by. now rewrite fold_left_app.
Qed.

Lemma fromkeys_by_In (l : list A) :
  forall v, In v (fromkeys_by eqb l) -> In v l.
Proof.
  induction l as [| x l IH] using rev_ind; intros v; [intros [] |].
  rewrite fromkeys_by_snoc, in_app_iff. unfold dict_add_by.
  destruct (existsb (fun k => eqb k x) (fromkeys_by eqb l)).
  - auto.
  - rewrite in_app_iff. intros [Hv | Hv]; auto.
Qed.

(** A key that is looked up is found, or compares equal to one that is
    there. *)
Lemma fromkeys_by_kept (l : list A) :
  forall v, In v l ->
    exists k, In k (fromkeys_by eqb l) /\ (k = v \/ eqb k v = true).
Proof.
  induction l as [| x l IH] using rev_ind; intros v; [intros [] |].
  rewrite fromkeys_by_snoc, in_app_iff. unfold dict_add_by.
  destruct (existsb (fun k => eqb k x) (fromkeys_by eqb l)) eqn:Hex.
  - intros [Hv | [<- | []]]; [now apply IH |].
    apply existsb_exists in Hex as (k & Hk & Hkx). eauto.
  - intros [Hv | [<- | []]].
    + destruct (IH v Hv) as (k & Hk & Hkv). exists k.
      rewrite in_app_iff. auto.
    + exists x. rewrite in_app_iff. cbn. auto.
Qed.

Lemma ForallOrdPairs_snoc (R : A -> A -> Prop) (l : list A) (x : A) :
  ForallOrdPairs R (l ++ [x]) <->
  ForallOrdPairs R l /\ Forall (fun k => R k x) l.
Proof.
  induction l as [| a l IH]; cbn.
  - split; [intros _ | intros _]; repeat constructor.
  - split.
    + intros Hop. inversion Hop as [| ? ? Ha Hl]; subst.
      apply IH in Hl as [Hl Hx]. apply Forall_app in Ha as [Ha Hax].
      inversion Hax; subst. repeat constructor; assumption.
    + intros [Hop Hall]. inversion Hop as [| ? ? Ha Hl]; subst.
      inversion Hall as [| ? ? Hax Hlx]; subst. constructor.
      * apply Forall_app. split; [assumption | now constructor].
      * apply IH. now split.
Qed.

(** No key of the dictionary compares equal to a later one. *)
Lemma fromkeys_by_apart (l : list A) :
  ForallOrdPairs (fun k v => eqb k v = false) (fromkeys_by eqb l).
Proof.
  induction l as [| x l IH] using rev_ind; [constructor |].
  rewrite fromkeys_by_snoc. unfold dict_add_by.
  destruct (existsb (fun k => eqb k x) (fromkeys_by eqb l)) eqn:Hex;
    [assumption |].
  apply ForallOrdPairs_snoc. split; [assumption |].
  apply Forall_forall. intros k Hk.
  destruct (eqb k x) eqn:Hkx; [| reflexivity].
  assert (Hsome : existsb (fun k => eqb k x) (fromkeys_by eqb l) = true)
    by (apply existsb_exists; eauto).
  congruence.
Qed.

Lemma fromkeys_by_id (l : list A) :
  ForallOrdPairs (fun k v => eqb k v = false) l -> fromkeys_by eqb l = l.
Proof.
  induction l as [| x l IH] using rev_ind; [reflexivity |].
  intros Hop. apply ForallOrdPairs_snoc in Hop as [Hl Hx].
  rewrite fromkeys_by_snoc, (IH Hl). unfold dict_add_by.
  destruct (existsb (fun k => eqb k x) l) eqn:Hex; [| reflexivity].
  apply existsb_exists in Hex as (k & Hk & Hkx).
  rewrite Forall_forall in Hx. specialize (Hx k Hk). congruence.
Qed.

(** An entry that compares equal to itself stands once among entries
    none of which compares equal to a later one. *)
Lemma apart_once (l : list A) :
  ForallOrdPairs (fun k v => eqb k v = false) l ->
  forall v, eqb v v = true ->
    forall b a, l = b ++ v :: a -> ~ In v b /\ ~ In v a.
Proof.
  intros Hop v Hv b a ->. induction b as [| y b IH]; cbn in *.
  - inversion Hop as [| ? ? Ha _]; subst. split; [tauto |].
    intros Hin. rewrite Forall_forall in Ha. specialize (Ha v Hin).
    congruence.
  - inversion Hop as [| ? ? Hy Hl]; subst.
    destruct (IH Hl) as [Hb Ha]. split; [| assumption].
    intros [<- | Hin]; [| contradiction].
    rewrite Forall_forall in Hy.
    assert (Hyy : eqb y y = false)
      by (apply Hy; apply in_or_app; right; now left).
    congruence.
Qed.

(** *** The dictionary against the specification *)

Lemma first_seen_upto_nil (n : nat) : first_seen_upto eqb n [] = [].
Proof. now destruct n. Qed.

Lemma filter_length_le (f : A -> bool) (l : list A) :
  (List.length (filter f l) <= List.length l)%nat.
Proof.
  induction l as [| x l IH]; cbn; [lia |].
  destruct (f x); cbn; lia.
Qed.

Lemma filter_filter (f g : A -> bool) (l : list A) :
  filter f (filter g l) = filter (fun y => g y && f y) l.
Proof.
  induction l as [| x l IH]; cbn; [reflexivity |].
  destruct (g x); cbn; [destruct (f x) |]; now rewrite IH.
Qed.

(** What the loop of [dict.fromkeys] adds to the keys it already has:
    of the entries that compare equal to none of them, the first
    appearances. *)
Lemma fold_dict_add_by (l : list A) :
  forall (n : nat) (kept : list A),
    (List.length
       (filter (fun y => negb (existsb (fun k => eqb k y) kept)) l) <= n)%nat ->
    fold_left (dict_add_by eqb) l kept =
    kept ++
    first_seen_upto eqb n
      (filter (fun y => negb (existsb (fun k => eqb k y) kept)) l).
Proof.
  induction l as [| x l IH]; intros n kept Hn; cbn [fold_left filter].
  - now rewrite first_seen_upto_nil, app_nil_r.
  - unfold dict_add_by at 2. cbn [filter] in Hn.
    destruct (existsb (fun k => eqb k x) kept) eqn:Hex; cbn [negb] in *.
    + now apply IH.
    + destruct n as [| n]; [cbn in Hn; lia |]. cbn [first_seen_upto].
      assert (Hf : filter (fun y => negb (existsb (fun k => eqb k y)
                                             (kept ++ [x]))) l =
                   filter (fun y => negb (eqb x y))
                     (filter (fun y => negb (existsb (fun k => eqb k y) kept))
                        l)).
      { rewrite filter_filter. apply filter_ext. intros y.
        rewrite existsb_app. cbn. rewrite orb_false_r. apply negb_orb. }
      rewrite (IH n (kept ++ [x])).
      * rewrite Hf, <- app_assoc. reflexivity.
      * rewrite Hf.
        pose proof (filter_length_le (fun y => negb (eqb x y))
                      (filter (fun y => negb (existsb (fun k => eqb k y) kept))
                         l)).
        cbn in Hn. lia.
Qed.

Lemma fromkeys_by_first_seen (l : list A) :
  fromkeys_by eqb l = first_seen eqb l.
Proof.
  unfold fromkeys_by, first_seen.
  rewrite (fold_dict_add_by l (List.length l) []).
  - cbn. f_equal. clear. induction l as [| x l IH]; cbn; congruence.
  - apply filter_length_le.
Qed.

End FromKeysByFacts.

(** ** [accruals_history] *)

Section AccrualsHistoryFacts.
Context `{Utils} `{!MonthAccruals}.
Import Accruals.

Lemma month_loop_charged acc pre accs :
  Forall2 (charged acc) pre accs ->
  forall rest out,
    month_loop acc (pre ++ rest) out = month_loop acc rest (out ++ accs).
Proof.
  induction 1 as [| row a pre accs [Hrow Hsum] _ IH]; intros rest out.
  - now rewrite app_nil_r.
  - cbn [app month_loop]. rewrite Hrow, Hsum, IH, <- app_assoc.
    reflexivity.
Qed.

Lemma month_loop_stops acc rest out :
  stops_at acc rest -> month_loop acc rest out = Ok out.
Proof.
  intros [-> | (z & post & a & -> & Hrow & Hsum)]; cbn [month_loop].
  - reflexivity.
  - now rewrite Hrow, Hsum.
Qed.

(** C8. Whatever the answer of the history endpoint, when its leading
    rows [pre] decode into accruals [accs] with totals that are not zero
    and what follows is nothing or starts with a row of zero total, the
    result of [accruals_history] is [accs]: the records of the rows
    before the first zero row, in the order of the answer, and nothing
    of the zero row or of what comes after it. *)
Theorem accruals_history_prefix acc pre rest accs :
  Forall2 (charged acc) pre accs ->
  stops_at acc rest ->
  accruals_history_rows acc (pre ++ rest) = Ok accs.
Proof.
  intros Hpre Hrest. unfold accruals_history_rows.
  rewrite (month_loop_charged _ _ _ Hpre).
  now apply month_loop_stops.
Qed.

End AccrualsHistoryFacts.

(** The example of the specification: January 500, February 0, March
    300 gives the January record alone. *)
Lemma accruals_history_prefix_witness :
  @Accruals.accruals_history_rows Sample.builtins Sample.utils
    Sample.month_accruals 7
    ([["738156"; "500"]] ++ [["738187"; "0"]; ["738216"; "300"]])
  = Ok [(7, 738156, [500])].
Proof.
  apply (@accruals_history_prefix Sample.builtins Sample.utils
           Sample.month_accruals 7
           [["738156"; "500"]] [["738187"; "0"]; ["738216"; "300"]]
           [(7, 738156, [500])]).
  - repeat constructor.
  - right. exists ["738187"; "0"], [["738216"; "300"]], (7, 738187, [0]).
    repeat split.
Defined.

(** ** [year_accruals] *)

Section YearAccrualsFacts.
Context `{Utils}.
Import Accruals.

Lemma year_step_limit acc limit db data :
  year_step acc limit db data =
  match row_date data with
  | Ok d =>
      if limit_reached limit db d then Ok None
      else year_step acc None db data
  | Err e => Err e
  end.
Proof.
  unfold year_step, row_date, rbind.
  destruct (getitem data 0) as [d0 |]; [| reflexivity].
  destruct (date_attr d0) as [d |]; [| reflexivity].
  cbn [limit_reached]. reflexivity.
Qed.

Lemma year_step_read acc db data :
  year_step acc None db data =
  match read_row data with
  | Ok r => apply_row acc db r
  | Err e => Err e
  end.
Proof.
  unfold year_step, read_row, apply_row, rbind. cbn [limit_reached].
  repeat match goal with
         | |- context [match ?x with Ok _ => _ | Err _ => _ end] =>
             destruct x; cbn; try reflexivity
         end.
Qed.

Lemma apply_row_goes_on acc db r : apply_row acc db r <> Ok None.
Proof.
  unfold apply_row.
  destruct (r_tag r =? "общая")%string; [discriminate |].
  destruct (r_tag r =? "пени")%string; discriminate.
Qed.

Lemma year_step_unlimited_goes_on acc db data :
  year_step acc None db data <> Ok None.
Proof.
  rewrite year_step_read. destruct (read_row data); [| discriminate].
  apply apply_row_goes_on.
Qed.

Lemma year_loop_app acc db l1 l2 :
  year_loop acc None db (l1 ++ l2) =
  match year_loop acc None db l1 with
  | Ok db' => year_loop acc None db' l2
  | Err e => Err e
  end.
Proof.
  revert db. induction l1 as [| data l1 IH]; intros db; cbn; [reflexivity |].
  destruct (year_step acc None db data) as [[db' |] | e] eqn:Hstep.
  - apply IH.
  - now apply year_step_unlimited_goes_on in Hstep.
  - reflexivity.
Qed.

Lemma last_id_snoc tag d rs r :
  last_id tag d (rs ++ [r]) =
  if tagged tag d r then Some (r_id r) else last_id tag d rs.
Proof.
  unfold last_id. now rewrite fold_left_app.
Qed.

Lemma find_snoc {A : Type} (f : A -> bool) l x :
  find f (l ++ [x]) =
  match find f l with
  | Some y => Some y
  | None => if f x then Some x else None
  end.
Proof.
  induction l as [| a l IH]; cbn; [reflexivity |].
  now destruct (f a).
Qed.

Lemma last_id_absent tag d rs :
  find (fun r => r_date r =? d) rs = None -> last_id tag d rs = None.
Proof.
  induction rs as [| r rs IH] using rev_ind; [reflexivity |].
  rewrite find_snoc, last_id_snoc. unfold tagged.
  destruct (find _ rs); [discriminate |].
  destruct (r_date r =? d); [discriminate |]. intros _. now apply IH.
Qed.

Lemma merged_snoc_other acc d rs r :
  r_date r <> d -> merged acc d (rs ++ [r]) = merged acc d rs.
Proof.
  intros Hne. unfold merged. rewrite find_snoc, !last_id_snoc. unfold tagged.
  destruct (Z.eqb_spec (r_date r) d) as [Heq | _]; [contradiction |].
  cbn. now destruct (find _ rs).
Qed.

Lemma grouped_keys_mem acc rs db d :
  grouped acc rs db ->
  dict_mem Z.eqb d db =
  if in_dec Z.eq_dec d (fromkeys Z.eq_dec (map r_date rs)) then true else false.
Proof.
  intros [Hkeys _].
  pose proof (dict_mem_In Z.eqb Z.eqb_spec d db) as Hmem.
  rewrite Hkeys in Hmem.
  destruct (in_dec Z.eq_dec d (fromkeys Z.eq_dec (map r_date rs))) as [Hin | Hout].
  - now apply Hmem.
  - destruct (dict_mem Z.eqb d db); [| reflexivity].
    exfalso. apply Hout. now apply Hmem.
Qed.

Lemma apply_row_grouped acc rs db r :
  grouped acc rs db ->
  recognized r = true ->
  exists db', apply_row acc db r = Ok (Some db') /\ grouped acc (rs ++ [r]) db'.
Proof.
  intros Hg Hrec.
  pose proof (grouped_keys_mem acc rs db (r_date r) Hg) as Hmem.
  destruct Hg as [Hkeys Hget].
  set (new := mkAccrual acc (r_date r) (r_summa r) (r_peni r) None None).
  set (db1 := setdefault Z.eqb (r_date r) new db).
  assert (Hkeys1 : map fst db1 = fromkeys Z.eq_dec (map r_date (rs ++ [r]))).
  { rewrite map_app. cbn [map]. rewrite fromkeys_snoc. unfold dict_add.
    subst db1. unfold setdefault. rewrite Hmem.
    destruct (in_dec Z.eq_dec (r_date r) (fromkeys Z.eq_dec (map r_date rs)));
      [assumption |].
    rewrite map_app, Hkeys. reflexivity. }
  assert (Hother : forall f d, r_date r <> d ->
            dict_get Z.eqb d (dict_modify Z.eqb (r_date r) f db1)
            = merged acc d (rs ++ [r])).
  { intros f d Hne.
    rewrite (dict_get_modify_other Z.eqb Z.eqb_spec) by assumption.
    rewrite merged_snoc_other by assumption. rewrite <- Hget.
    subst db1. unfold setdefault.
    destruct (dict_mem Z.eqb (r_date r) db); [reflexivity |].
    rewrite dict_get_app. cbn.
    destruct (Z.eqb_spec (r_date r) d); [contradiction |].
    now destruct (dict_get Z.eqb d db). }
  assert (Hsame : forall f,
            dict_get Z.eqb (r_date r) (dict_modify Z.eqb (r_date r) f db1)
            = option_map f
                (match find (fun x => r_date x =? r_date r) rs with
                 | Some r0 =>
                     Some (mkAccrual acc (r_date r) (r_summa r0) (r_peni r0)
                             (last_id "общая" (r_date r) rs)
                             (last_id "пени" (r_date r) rs))
                 | None => Some new
                 end)).
  { intros f. rewrite dict_get_modify_same. f_equal.
    subst db1. unfold setdefault, dict_mem.
    specialize (Hget (r_date r)). unfold merged in Hget.
    destruct (find (fun x => r_date x =? r_date r) rs) as [r0 |].
    - now rewrite Hget.
    - rewrite Hget, dict_get_app, Hget. cbn. now rewrite Z.eqb_refl. }
  assert (Hmerged :
            merged acc (r_date r) (rs ++ [r]) =
            match find (fun x => r_date x =? r_date r) rs with
            | Some r0 =>
                Some (mkAccrual acc (r_date r) (r_summa r0) (r_peni r0)
                        (last_id "общая" (r_date r) (rs ++ [r]))
                        (last_id "пени" (r_date r) (rs ++ [r])))
            | None =>
                Some (mkAccrual acc (r_date r) (r_summa r) (r_peni r)
                        (last_id "общая" (r_date r) (rs ++ [r]))
                        (last_id "пени" (r_date r) (rs ++ [r])))
            end).
  { unfold merged. rewrite find_snoc, Z.eqb_refl.
    now destruct (find _ rs). }
  unfold apply_row. fold new. fold db1.
  unfold recognized in Hrec.
  destruct (r_tag r =? "общая")%string eqn:Hbill.
  - eexists. split; [reflexivity |]. split.
    + now rewrite dict_modify_keys.
    + intros d. destruct (Z.eq_dec (r_date r) d) as [<- | Hne];
        [| now apply Hother].
      rewrite Hsame, Hmerged. rewrite !last_id_snoc. unfold tagged.
      rewrite Z.eqb_refl, Hbill. apply String.eqb_eq in Hbill.
      rewrite Hbill. cbn [andb String.eqb Ascii.eqb Bool.eqb].
      destruct (find _ rs) eqn:Hfind; cbn; [reflexivity |].
      now rewrite (last_id_absent _ _ _ Hfind).
  - cbn in Hrec. rewrite Hrec.
    eexists. split; [reflexivity |]. split.
    + now rewrite dict_modify_keys.
    + intros d. destruct (Z.eq_dec (r_date r) d) as [<- | Hne];
        [| now apply Hother].
      rewrite Hsame, Hmerged. rewrite !last_id_snoc. unfold tagged.
      rewrite Z.eqb_refl, Hbill, Hrec. cbn [andb].
      destruct (find _ rs) eqn:Hfind; cbn; [reflexivity |].
      now rewrite (last_id_absent _ _ _ Hfind).
Qed.

Lemma year_loop_grouped acc rs :
  forall rows,
    Forall2 reads rows rs ->
    forallb recognized rs = true ->
    exists db, year_loop acc None [] rows = Ok db /\ grouped acc rs db.
Proof.
  induction rs as [| r rs IH] using rev_ind; intros rows Hrows Hrec.
  - inversion Hrows; subst. exists []. repeat split.
  - apply Forall2_app_inv_r in Hrows as (l1 & l2 & H1 & H2 & ->).
    inversion H2 as [| data ? l2' ? Hread Hnil]; subst.
    inversion Hnil; subst.
    rewrite forallb_app in Hrec. apply andb_prop in Hrec as [Hrs Hr].
    cbn in Hr. rewrite andb_true_r in Hr.
    destruct (IH l1 H1 Hrs) as (db & Hloop & Hg).
    destruct (apply_row_grouped acc rs db r Hg Hr) as (db' & Hstep & Hg').
    exists db'. split; [| assumption].
    rewrite year_loop_app, Hloop. cbn [year_loop].
    rewrite year_step_read. unfold reads in Hread. now rewrite Hread, Hstep.
Qed.

Lemma find_date_In d rs :
  In d (map r_date rs) ->
  exists r, find (fun x => r_date x =? d) rs = Some r.
Proof.
  induction rs as [| r rs IH]; cbn; [intros [] |].
  destruct (Z.eqb_spec (r_date r) d) as [_ | Hne]; [now exists r |].
  intros [Heq | Hin]; [contradiction | now apply IH].
Qed.

Lemma group_by_date_dates acc rs :
  map date (group_by_date acc rs) = fromkeys Z.eq_dec (map r_date rs).
Proof.
  unfold group_by_date.
  assert (Hin : forall d, In d (fromkeys Z.eq_dec (map r_date rs)) ->
                          In d (map r_date rs)) by (intros d; apply fromkeys_In).
  revert Hin. generalize (fromkeys Z.eq_dec (map r_date rs)) as ks.
  induction ks as [| k ks IH]; intros Hin; cbn; [reflexivity |].
  rewrite map_app, IH by (intros d Hd; apply Hin; now right).
  destruct (find_date_In k rs (Hin k (or_introl eq_refl))) as [r Hr].
  unfold merged. now rewrite Hr.
Qed.

Lemma grouped_values acc rs db :
  grouped acc rs db -> map snd db = group_by_date acc rs.
Proof.
  intros [Hkeys Hget].
  rewrite (dict_values_by_keys Z.eqb Z.eqb_spec)
    by (rewrite Hkeys; apply fromkeys_NoDup).
  unfold group_by_date. rewrite Hkeys.
  apply flat_map_ext. intros d. now rewrite Hget.
Qed.

Lemma apply_row_unrecognized acc db r :
  recognized r = false -> apply_row acc db r = Err ParsingError.
Proof.
  unfold recognized, apply_row. intros Hrec.
  apply orb_false_elim in Hrec as [-> ->]. reflexivity.
Qed.

Lemma apply_row_recognized acc db r db' :
  apply_row acc db r = Ok db' -> recognized r = true.
Proof.
  destruct (recognized r) eqn:Hrec; [reflexivity |].
  now rewrite apply_row_unrecognized.
Qed.



Lemma read_row_date data r :
  read_row data = Ok r -> row_date data = Ok (r_date r).
Proof.
  unfold read_row, row_date, rbind.
  repeat match goal with
         | |- context [match ?x with Ok _ => _ | Err _ => _ end] =>
             destruct x; try discriminate
         end.
  now intros [= <-].
Qed.

Lemma year_loop_unlimited_reads acc rows :
  forall db0 db,
    year_loop acc None db0 rows = Ok db ->
    exists rs, Forall2 reads rows rs /\ forallb recognized rs = true.
Proof.
  induction rows as [| data rows IH]; intros db0 db; cbn [year_loop].
  - intros _. exists []. split; [constructor | reflexivity].
  - rewrite year_step_read.
    destruct (read_row data) as [r |] eqn:Hread; [| discriminate].
    destruct (apply_row acc db0 r) as [[db1 |] | e] eqn:Hstep;
      [| now apply apply_row_goes_on in Hstep | discriminate].
    intros Hloop. destruct (IH db1 db Hloop) as (rs & Hrs & Hrec).
    exists (r :: rs). split; [now constructor |].
    cbn. now rewrite (apply_row_recognized _ _ _ _ Hstep).
Qed.

Lemma apply_row_length acc db r db' :
  apply_row acc db r = Ok (Some db') ->
  List.length db' =
  if dict_mem Z.eqb (r_date r) db then List.length db else S (List.length db).
Proof.
  unfold apply_row, setdefault.
  destruct (r_tag r =? "общая")%string;
    [| destruct (r_tag r =? "пени")%string; [| discriminate]];
    intros [= <-]; rewrite dict_modify_length;
    destruct (dict_mem Z.eqb (r_date r) db); try reflexivity;
    rewrite length_app; cbn; lia.
Qed.

Lemma year_loop_limit_prefix acc n rows :
  1 <= n ->
  forall db0 db,
    Z.of_nat (List.length db0) <= n ->
    year_loop acc (Some n) db0 rows = Ok db ->
    exists pre post,
      rows = pre ++ post /\
      year_loop acc None db0 pre = Ok db /\
      Z.of_nat (List.length db) <= n /\
      (post = [] \/
       exists data d rest,
         post = data :: rest /\ row_date data = Ok d /\
         dict_mem Z.eqb d db = false /\ Z.of_nat (List.length db) = n).
Proof.
  intros Hn. induction rows as [| data rows IH]; intros db0 db Hlen;
    cbn [year_loop].
  - intros [= <-]. exists [], []. repeat split; auto.
  - rewrite year_step_limit.
    destruct (row_date data) as [d |] eqn:Hdate; [| discriminate].
    destruct (limit_reached (Some n) db0 d) eqn:Hlim.
    + intros [= <-]. exists [], (data :: rows).
      cbn [limit_reached] in Hlim.
      apply andb_prop in Hlim as [Hlim Hmem].
      apply andb_prop in Hlim as [_ Hfull].
      apply Z.eqb_eq in Hfull. apply negb_true_iff in Hmem.
      repeat split; auto. right. exists data, d, rows.
      repeat split; auto.
    + rewrite year_step_read.
      destruct (read_row data) as [r |] eqn:Hread; [| discriminate].
      destruct (apply_row acc db0 r) as [[db1 |] | e] eqn:Hstep;
        [| now apply apply_row_goes_on in Hstep | discriminate].
      intros Hloop.
      assert (Hlen1 : Z.of_nat (List.length db1) <= n).
      { rewrite (apply_row_length _ _ _ _ Hstep).
        apply read_row_date in Hread. rewrite Hdate in Hread.
        injection Hread as ->. cbn [limit_reached] in Hlim.
        destruct (dict_mem Z.eqb (r_date r) db0); [assumption |].
        destruct (Z.eqb_spec n 0); [lia |].
        destruct (Z.eqb_spec n (Z.of_nat (List.length db0))); [discriminate |].
        lia. }
      destruct (IH db1 db Hlen1 Hloop) as (pre & post & -> & Hpre & Hle & Hpost).
      exists (data :: pre), post. repeat split; auto.
      cbn [year_loop]. now rewrite year_step_read, Hread, Hstep.
Qed.

(** C10. When [year_accruals] is called with a limit [n >= 1] and
    returns, its result holds at most [n] records, of distinct dates,
    and it is the grouping of the rows [pre] that come before the first
    row whose date would be the [n+1]-th one: the loop stops at that
    row, so neither it nor any row after it, whatever its date, is
    applied. *)
Theorem year_accruals_limit acc n rows result :
  1 <= n ->
  year_accruals_rows acc (Some n) rows = Ok result ->
  Z.of_nat (List.length result) <= n /\
  NoDup (map date result) /\
  exists pre post rs,
    rows = pre ++ post /\
    Forall2 reads pre rs /\
    result = group_by_date acc rs /\
    (post = [] \/
     exists data d rest,
       post = data :: rest /\ row_date data = Ok d /\
       ~ In d (map date result) /\ Z.of_nat (List.length result) = n).
Proof.
  intros Hn. unfold year_accruals_rows.
  destruct (year_loop acc (Some n) [] rows) as [db |] eqn:Hloop;
    [| discriminate].
  cbn. intros [= <-].
  destruct (year_loop_limit_prefix acc n rows Hn [] db) as
    (pre & post & -> & Hpre & Hle & Hpost); [cbn; lia | assumption |].
  destruct (year_loop_unlimited_reads acc pre [] db Hpre) as (rs & Hrs & Hrec).
  destruct (year_loop_grouped acc rs pre Hrs Hrec) as (db' & Hpre' & Hg).
  rewrite Hpre in Hpre'. injection Hpre' as <-.
  pose proof (grouped_values acc rs db Hg) as Hvalues.
  assert (Hdates : map date (map snd db) = map fst db).
  { rewrite Hvalues, group_by_date_dates. symmetry. apply Hg. }
  rewrite length_map. split; [assumption |]. split.
  - rewrite Hdates. destruct Hg as [-> _]. apply fromkeys_NoDup.
  - exists pre, post, rs. repeat split; auto.
    destruct Hpost as [-> | (data & d & rest & -> & Hdate & Hmem & Hfull)];
      [now left | right].
    exists data, d, rest. repeat split; auto.
    rewrite Hdates. intros Hin.
    apply (dict_mem_In Z.eqb Z.eqb_spec) in Hin. congruence.
Qed.

End YearAccrualsFacts.


(** With a limit of one date, the penalty receipt that comes after the
    receipt of an older date is not applied, where a loop that skipped
    the older receipt and went on would apply it; and a limit of zero
    bounds nothing. *)
Lemma year_accruals_limit_counterexample :
  @Accruals.year_accruals_rows Sample.builtins Sample.utils 7 (Some 1)
    Sample.receipts_interleaved
  = Ok [Sample.accrual 7 738156 500 3 (Some "A") None] /\
  @Accruals.year_accruals_skip Sample.builtins Sample.utils 7 (Some 1)
    Sample.receipts_interleaved
  = Ok [Sample.accrual 7 738156 500 3 (Some "A") (Some "B")] /\
  @Accruals.year_accruals_rows Sample.builtins Sample.utils 7 (Some 1)
    Sample.receipts_interleaved
  <> @Accruals.year_accruals_skip Sample.builtins Sample.utils 7 (Some 1)
       Sample.receipts_interleaved /\
  exists result,
    @Accruals.year_accruals_rows Sample.builtins Sample.utils 7 (Some 0)
      Sample.receipts_interleaved = Ok result /\
    ~ (Z.of_nat (List.length result) <= 0).
Proof.
  repeat split; try discriminate.
  eexists. split; [reflexivity |]. cbn. lia.
Qed.

Lemma year_accruals_limit_witness :
  Z.of_nat (List.length [Sample.accrual 7 738156 500 3 (Some "A") None]) <= 1.
Proof.
  apply (@year_accruals_limit Sample.builtins Sample.utils 7 1
           Sample.receipts_interleaved
           [Sample.accrual 7 738156 500 3 (Some "A") None]).
  - lia.
  - reflexivity.
Defined.

(** ** [meters_history] *)

Section MetersFacts.
Context `{Utils}.
Import Meters.
Variable fetch : nat -> Z -> Z -> result (list (list string)).

Lemma set_add_idem d u : set_add d (set_add d u) = set_add d u.
Proof.
  unfold set_add at 2. destruct (existsb (Z.eqb d) u) eqn:Hin.
  - unfold set_add. now rewrite Hin.
  - unfold set_add. rewrite existsb_app, Hin. cbn. now rewrite Z.eqb_refl.
Qed.

Lemma row_step_same_day st row st' d :
  meter_date row = Ok d ->
  row_step st row = Ok st' ->
  unique_dates st' = set_add d (unique_dates st) /\ end_ st' = d.
Proof.
  unfold meter_date, row_step.
  destruct row as [| x0 [| key [| date_s [| value_s [| consumption_s
    [| source_s [| ? ?]]]]]]]; try discriminate.
  intros ->. cbn.
  destruct (pyfloat consumption_s) as [c |]; [| discriminate]. cbn.
  destruct (float_truthy c); cbn.
  - destruct (pyfloat value_s) as [v |]; [| discriminate]. cbn.
    destruct (split_once separator key); [| discriminate].
    now intros [= <-].
  - now intros [= <-].
Qed.

Lemma rows_loop_same_day d rows :
  Forall (fun row => meter_date row = Ok d) rows ->
  forall st st',
    unique_dates st = [d] -> end_ st = d ->
    rows_loop st rows = Ok st' ->
    unique_dates st' = [d] /\ end_ st' = d.
Proof.
  induction 1 as [| row rows Hrow _ IH]; intros st st' Hu He; cbn.
  - now intros [= <-].
  - destruct (row_step st row) as [st1 |] eqn:Hstep; [| discriminate].
    destruct (row_step_same_day _ _ _ _ Hrow Hstep) as [Hu1 He1].
    apply IH; [| assumption].
    rewrite Hu1, Hu. unfold set_add. cbn. now rewrite Z.eqb_refl.
Qed.

Lemma rows_loop_one_day d rows :
  rows <> [] ->
  Forall (fun row => meter_date row = Ok d) rows ->
  forall e db0 st',
    rows_loop (mkPage [] e db0) rows = Ok st' ->
    unique_dates st' = [d] /\ end_ st' = d.
Proof.
  destruct rows as [| row rows]; [contradiction |].
  intros _ Hall e db0 st'. inversion Hall as [| ? ? Hrow Hrest]; subst. cbn.
  destruct (row_step (mkPage [] e db0) row) as [st1 |] eqn:Hstep;
    [| discriminate].
  destruct (row_step_same_day _ _ _ _ Hrow Hstep) as [Hu1 He1].
  now apply (rows_loop_same_day d rows Hrest).
Qed.

(** *** Termination on a portal that keeps to the window *)

Lemma row_step_date st row st' :
  row_step st row = Ok st' ->
  meter_date row = Ok (end_ st').
Proof.
  unfold meter_date, row_step.
  destruct row as [| x0 [| key [| date_s [| value_s [| consumption_s
    [| source_s [| ? ?]]]]]]]; try discriminate.
  destruct (str_to_date (substring 27 8 date_s)) as [e |]; [| discriminate].
  cbn.
  destruct (pyfloat consumption_s) as [c |]; [| discriminate]. cbn.
  destruct (float_truthy c); cbn.
  - destruct (pyfloat value_s) as [v |]; [| discriminate]. cbn.
    destruct (split_once separator key); [| discriminate].
    now intros [= <-].
  - now intros [= <-].
Qed.

Lemma rows_loop_end rows :
  rows <> [] ->
  forall st st',
    rows_loop st rows = Ok st' ->
    meter_date (last rows []) = Ok (end_ st').
Proof.
  induction rows as [| row rows IH]; [contradiction |].
  intros _ st st'. cbn [rows_loop].
  destruct (row_step st row) as [st1 |] eqn:Hstep; [| discriminate].
  destruct rows as [| row' rows].
  - cbn. intros [= <-]. now apply row_step_date in Hstep.
  - intros Hloop. change (last (row :: row' :: rows) [])
      with (last (row' :: rows) []).
    apply (IH ltac:(discriminate) st1 st' Hloop).
Qed.

Lemma meter_date_dec d row : {meter_date row = Ok d} + {meter_date row <> Ok d}.
Proof.
  destruct (meter_date row) as [d' | e].
  - destruct (Z.eq_dec d' d) as [-> | Hne]; [now left | right; congruence].
  - right. discriminate.
Qed.

(** What a full answer of a well-behaved portal leads to: the loop
    ends, or goes on with a strictly smaller window that still starts
    at [start]. *)
Lemma page_turn_progress n start e d :
  well_behaved fetch ->
  match page_turn fetch n start e d with
  | Ok (Again e' _) => start <= e' < e
  | _ => True
  end.
Proof.
  intros Hwb. unfold page_turn.
  destruct (fetch n start e) as [rows |] eqn:Hfetch; cbn [rbind]; [| exact I].
  destruct (Hwb n start e rows Hfetch) as [Hwin Hnewest].
  destruct (Nat.ltb_spec 25 (List.length rows)); [exact I |].
  destruct (rows_loop (mkPage [] e d) rows) as [st |] eqn:Hrows;
    cbn [rbind]; [| exact I].
  destruct (Nat.ltb_spec (List.length rows) 25); [exact I |].
  assert (Hne : rows <> []) by (intros ->; cbn in *; lia).
  pose proof (rows_loop_end rows Hne _ _ Hrows) as Hlast.
  assert (Hbound : start <= end_ st <= e).
  { assert (Hin : In (last rows []) rows).
    { destruct (exists_last Hne) as (l & x & ->).
      rewrite last_last. apply in_or_app. right. now left. }
    rewrite Forall_forall in Hwin.
    destruct (Hwin _ Hin) as (d0 & Hd0 & Hrange). congruence. }
  destruct (Nat.eqb_spec (List.length (unique_dates st)) 1) as [Hone | Hmany].
  - destruct (Z.eqb_spec start (end_ st)); [exact I | lia].
  - split; [lia |].
    destruct (Forall_Exists_dec (fun row => meter_date row = Ok (end_ st))
                (meter_date_dec (end_ st)) rows) as [Hall | Hex].
    + destruct (rows_loop_one_day (end_ st) rows Hne Hall e d st Hrows)
        as [Hu _]. rewrite Hu in Hmany. now contradiction Hmany.
    + apply Exists_exists in Hex as (row & Hrow & Hother).
      specialize (Hnewest _ Hlast). rewrite Forall_forall in Hnewest, Hwin.
      destruct (Hnewest _ Hrow) as (d1 & Hd1 & Hle).
      destruct (Hwin _ Hrow) as (d2 & Hd2 & Hrange).
      assert (d1 <> end_ st) by congruence.
      assert (d1 = d2) by congruence. lia.
Qed.

(** X6: On a well-behaved portal the loop of [meters_history] ends: as many
    turns as the window has days, plus one, are enough. *)
Lemma meters_loop_total :
  well_behaved fetch ->
  forall k n start e d,
    start <= e ->
    e - start < Z.of_nat k ->
    exists r, meters_loop fetch k n start e d = Some r.
Proof.
  intros Hwb. induction k as [| k IH]; intros n start e d Hle Hk.
  - cbn in Hk. lia.
  - cbn [meters_loop].
    pose proof (page_turn_progress n start e d Hwb) as Hturn.
    destruct (page_turn fetch n start e d) as [[d' | e' d'] | ex]; eauto.
    apply IH; lia.
Qed.

(** C6. The loop of [meters_history] ends at any turn whose answer
    has fewer than 25 rows, and at any turn whose answer has 25 rows
    that all carry the date [start] (so that [start == end] once the
    rows are read): with any fuel left it gives what this last answer
    gives, and asks nothing more.  On a portal that answers within the
    window it is asked for, newest first, [meters_history] ends
    whatever the window: one request per day of the window, and one
    more, are enough. *)
Theorem meters_history_terminates :
  (forall fuel n start e d rows,
     fetch n start e = Ok rows ->
     (List.length rows < 25)%nat \/
     (List.length rows = 25%nat /\
      Forall (fun row => meter_date row = Ok start) rows) ->
     meters_loop fetch (S fuel) n start e d = Some (last_turn e d rows)) /\
  (well_behaved fetch ->
   forall fuel start e,
     date_or e _MAX_DATE - date_or start _MIN_DATE < Z.of_nat fuel ->
     exists r, meters_history_body fetch fuel start e = Some r).
Proof.
  split.
  - intros fuel n start e d rows Hfetch Hcase.
    cbn [meters_loop]. unfold page_turn, last_turn.
    rewrite Hfetch. cbn [rbind].
    destruct Hcase as [Hshort | [Hfull Hday]].
    + destruct (Nat.ltb_spec 25 (List.length rows)); [lia |].
      destruct (rows_loop (mkPage [] e d) rows) as [st |]; [| reflexivity].
      cbn [rbind]. destruct (Nat.ltb_spec (List.length rows) 25); [| lia].
      reflexivity.
    + rewrite Hfull. cbn [Nat.ltb Nat.leb].
      destruct (rows_loop (mkPage [] e d) rows) as [st |] eqn:Hrows;
        [| reflexivity].
      assert (Hne : rows <> []) by (intros ->; discriminate).
      destruct (rows_loop_one_day start rows Hne Hday e d st Hrows)
        as [Hu He].
      cbn [rbind]. rewrite Hu, He, Z.eqb_refl. reflexivity.
  - intros Hwb fuel start e. unfold meters_history_body.
    generalize (date_or start _MIN_DATE) as s, (date_or e _MAX_DATE) as e0.
    intros s e0 Hfuel.
    destruct (Z.ltb_spec e0 s) as [Hlt | Hle]; [eauto |].
    assert (Hloop : forall k n e1 d,
               s <= e1 -> e1 - s < Z.of_nat k ->
               exists r, meters_loop fetch k n s e1 d = Some r).
    { induction k as [| k IH]; intros n e1 d Hs Hk; [cbn in Hk; lia |].
      cbn [meters_loop].
      pose proof (page_turn_progress n s e1 d Hwb) as Hturn.
      destruct (page_turn fetch n s e1 d) as [[d' | e' d'] | ex]; eauto.
      apply IH; lia. }
    destruct (Hloop fuel 0%nat e0 [] Hle Hfuel) as [[d | ex] ->]; eauto.
Qed.

(** *** The window does not depend on the readings kept so far *)

Lemma row_step_db st row st' (d2 : db_t) :
  row_step st row = Ok st' ->
  exists st2,
    row_step (mkPage (unique_dates st) (end_ st) d2) row = Ok st2 /\
    unique_dates st2 = unique_dates st' /\ end_ st2 = end_ st'.
Proof.
  unfold row_step.
  destruct row as [| x0 [| key [| date_s [| value_s [| consumption_s
    [| source_s [| ? ?]]]]]]]; try discriminate.
  destruct (str_to_date (substring 27 8 date_s)) as [e |]; [| discriminate].
  cbn.
  destruct (pyfloat consumption_s) as [c |]; [| discriminate]. cbn.
  destruct (float_truthy c); cbn.
  - destruct (pyfloat value_s) as [v |]; [| discriminate]. cbn.
    destruct (split_once separator key) as [k |]; [| discriminate].
    intros [= <-]. eexists. split; [reflexivity |]. split; reflexivity.
  - intros [= <-]. eexists. split; [reflexivity |]. split; reflexivity.
Qed.

Lemma rows_loop_db rows :
  forall st st' (d2 : db_t),
    rows_loop st rows = Ok st' ->
    exists st2,
      rows_loop (mkPage (unique_dates st) (end_ st) d2) rows = Ok st2 /\
      unique_dates st2 = unique_dates st' /\ end_ st2 = end_ st'.
Proof.
  induction rows as [| row rows IH]; intros st st' d2; cbn.
  - intros [= <-]. eexists. split; [reflexivity |]. split; reflexivity.
  - destruct (row_step st row) as [st1 |] eqn:Hstep; [| discriminate].
    intros Hloop.
    destruct (row_step_db _ _ _ d2 Hstep) as (s2 & -> & Hu & He).
    destruct (IH _ _ (db s2) Hloop) as (st2 & Hloop2 & Hu2 & He2).
    exists st2. split; [| split; assumption].
    rewrite <- Hu, <- He in Hloop2. now destruct s2.
Qed.

Lemma page_turn_again_db n start e (d d2 : db_t) e' d' :
  page_turn fetch n start e d = Ok (Again e' d') ->
  exists d2', page_turn fetch n start e d2 = Ok (Again e' d2').
Proof.
  unfold page_turn.
  destruct (fetch n start e) as [rows |]; cbn [rbind]; [| discriminate].
  destruct (25 <? List.length rows)%nat; [discriminate |].
  destruct (rows_loop (mkPage [] e d) rows) as [st |] eqn:Hrows;
    cbn [rbind]; [| discriminate].
  destruct (rows_loop_db _ _ _ d2 Hrows) as (st2 & Hrows2 & Hu & He).
  cbn in Hrows2. rewrite Hrows2. cbn [rbind]. rewrite Hu, He.
  destruct (List.length rows <? 25)%nat; [discriminate |].
  destruct (List.length (unique_dates st) =? 1)%nat.
  - destruct (start =? end_ st); [discriminate |].
    intros [= <- _]. eauto.
  - intros [= <- _]. eauto.
Qed.

(** *** The result *)

Lemma history_result_entries (d : db_t) :
  Forall2 (fun kv h =>
             (name h, serial h) = fst kv /\
             history h = fromkeys_by MeterValue_eqb (snd kv))
    d (history_result d).
Proof.
  unfold history_result.
  induction d as [| [[nm sr] acc] d IH]; cbn; constructor; auto.
Qed.

(** C7. When [meters_history] returns, its result has one entry for
    each (name, serial) key of the dictionary [d] the loop has filled,
    in the order of the keys.  The history of an entry is what the
    specification says of the readings [acc] accumulated under that
    key: each reading stays where it first appears, and the later
    readings that compare equal to it collapse into it.  So no reading
    of the history compares equal to a later one, every reading of the
    history is one of [acc], every reading of [acc] is in the history
    or compares equal to one that is, and a reading that compares equal
    to itself stands once in the history. *)
Theorem meters_history_dedup fuel start e res :
  meters_history_body fetch fuel start e = Some (Ok res) ->
  exists d,
    meters_loop fetch fuel 0 (date_or start _MIN_DATE)
      (date_or e _MAX_DATE) [] = Some (Ok d) /\
    Forall2 (fun kv h =>
               (name h, serial h) = fst kv /\
               history h = first_seen MeterValue_eqb (snd kv) /\
               ForallOrdPairs (fun k v => MeterValue_eqb k v = false)
                 (history h) /\
               (forall v, In v (history h) -> In v (snd kv)) /\
               (forall v, In v (snd kv) ->
                  exists k, In k (history h) /\
                            (k = v \/ MeterValue_eqb k v = true)) /\
               (forall v, MeterValue_eqb v v = true ->
                  forall b a, history h = b ++ v :: a ->
                              ~ In v b /\ ~ In v a))
      d res.
Proof.
  unfold meters_history_body.
  destruct (date_or e _MAX_DATE <? date_or start _MIN_DATE); [discriminate |].
  destruct (meters_loop fetch fuel 0 (date_or start _MIN_DATE)
              (date_or e _MAX_DATE) []) as [[d |] |]; try discriminate.
  intros [= <-]. exists d. split; [reflexivity |].
  eapply Forall2_impl; [| apply history_result_entries].
  intros kv h [Hkey Hh]. rewrite Hh. split; [assumption |].
  split; [apply fromkeys_by_first_seen |].
  split; [apply fromkeys_by_apart |].
  split; [apply fromkeys_by_In |].
  split; [apply fromkeys_by_kept |].
  apply apart_once, fromkeys_by_apart.
Qed.

End MetersFacts.

(** A portal that keeps to the window, newest first. *)
Lemma two_full_days_well_behaved :
  @Meters.well_behaved Sample.builtins Sample.utils MetersMore.two_full_days.
Proof.
  intros n s e rows. unfold MetersMore.two_full_days.
  destruct (Z.eqb_spec s 736700) as [-> | _]; cbn [andb];
    [destruct (Z.eqb_spec e 736701) as [-> | _];
     [| destruct (Z.eqb_spec e 736700) as [-> | _]] |];
    intros [= <-]; (split; [| intros d Hd; vm_compute in Hd]);
    try (constructor; fail); try discriminate Hd;
    try (injection Hd as <-).
  - repeat (apply Forall_cons;
            [exists 736701; split; [reflexivity | lia] |]).
    apply Forall_nil.
  - repeat (apply Forall_cons;
            [exists 736701; split; [reflexivity | lia] |]).
    apply Forall_nil.
  - repeat (apply Forall_cons;
            [exists 736700; split; [reflexivity | lia] |]).
    apply Forall_nil.
  - repeat (apply Forall_cons;
            [exists 736700; split; [reflexivity | lia] |]).
    apply Forall_nil.
Defined.

(** A full answer of 25 rows of the day [start] ends the loop at once;
    two days of 25 readings each take two requests. *)
Lemma meters_history_terminates_witness :
  @Meters.meters_loop Sample.builtins Sample.utils MetersMore.two_full_days
    1 1 736700 736700 []
  = Some (@Meters.last_turn Sample.builtins Sample.utils 736700 []
            (repeat (SampleMore.counter_row_on "00736700") 25)) /\
  exists r,
    @Meters.meters_history_body Sample.builtins Sample.utils
      MetersMore.two_full_days 2 (Some 736700) (Some 736701) = Some r.
Proof.
  destruct (@meters_history_terminates Sample.builtins Sample.utils
              MetersMore.two_full_days) as [Hturn Hall].
  split.
  - apply (Hturn 0%nat 1%nat 736700 736700 []); [reflexivity |].
    right. split; [reflexivity | repeat constructor].
  - apply (Hall two_full_days_well_behaved 2%nat (Some 736700) (Some 736701)).
    cbn. lia.
Defined.

(** A portal that answers the window from 736700 to 736701 with a full
    page, oldest first, every time: the page is within the window and
    has no more than 25 rows, its last row carries the date [end], and
    the loop asks for the same window again, for ever. *)
Lemma meters_history_never_ends_counterexample :
  Forall (@Meters.dated Sample.builtins Sample.utils 736700 736701)
    SampleMore.oldest_first_page /\
  List.length SampleMore.oldest_first_page = 25%nat /\
  ~ exists fuel r,
      @Meters.meters_history_body Sample.builtins Sample.utils
        (fun _ _ _ => Ok SampleMore.oldest_first_page)
        fuel (Some 736700) (Some 736701) = Some r.
Proof.
  split; [| split; [reflexivity |]].
  - unfold SampleMore.oldest_first_page. cbn [repeat app].
    repeat (apply Forall_cons;
            [first [exists 736700; split; [reflexivity | lia]
                   | exists 736701; split; [reflexivity | lia]] |]).
    apply Forall_nil.
  - assert (Hturn : forall n d,
              exists d',
                @Meters.page_turn Sample.builtins Sample.utils
                  (fun _ _ _ => Ok SampleMore.oldest_first_page)
                  n 736700 736701 d = Ok (Meters.Again 736701 d')).
    { intros n d.
      assert (Hempty :
                match @Meters.page_turn Sample.builtins Sample.utils
                        (fun _ _ _ => Ok SampleMore.oldest_first_page)
                        n 736700 736701 [] with
                | Ok (Meters.Again e' _) => e' = 736701
                | _ => False
                end) by (vm_compute; reflexivity).
      destruct (@Meters.page_turn Sample.builtins Sample.utils
                  (fun _ _ _ => Ok SampleMore.oldest_first_page)
                  n 736700 736701 []) as [[d0 | e0 d0] | ex] eqn:Hturn0;
        try contradiction.
      subst e0.
      exact (@page_turn_again_db Sample.builtins Sample.utils _ _ _ _ _ d
               _ _ Hturn0). }
    assert (Hloop : forall fuel n d,
              @Meters.meters_loop Sample.builtins Sample.utils
                (fun _ _ _ => Ok SampleMore.oldest_first_page)
                fuel n 736700 736701 d = None).
    { induction fuel as [| fuel IH]; intros n d; [reflexivity |].
      cbn [Meters.meters_loop]. destruct (Hturn n d) as [d' ->]. apply IH. }
    intros (fuel & r & Hr). unfold Meters.meters_history_body in Hr.
    cbn [Meters.date_or] in Hr.
    change (736701 <? 736700) with false in Hr. cbv iota in Hr.
    rewrite Hloop in Hr. discriminate.
Qed.

(** A reading met twice is kept once, at its first place. *)
Lemma meters_history_dedup_witness :
  exists d,
    @Meters.meters_loop Sample.builtins Sample.utils
      (fun _ _ _ => Ok SampleMore.page_with_repeat) 1 0
      (Meters.date_or None Meters._MIN_DATE)
      (Meters.date_or None Meters._MAX_DATE) [] = Some (Ok d) /\
    Forall2 (fun kv h =>
               (Meters.name h, Meters.serial h) = fst kv /\
               Meters.history h = first_seen Meters.MeterValue_eqb (snd kv) /\
               ForallOrdPairs
                 (fun k v => Meters.MeterValue_eqb k v = false)
                 (Meters.history h) /\
               (forall v, In v (Meters.history h) -> In v (snd kv)) /\
               (forall v, In v (snd kv) ->
                  exists k, In k (Meters.history h) /\
                            (k = v \/ Meters.MeterValue_eqb k v = true)) /\
               (forall v, Meters.MeterValue_eqb v v = true ->
                  forall b a, Meters.history h = b ++ v :: a ->
                              ~ In v b /\ ~ In v a))
      d
      [@Meters.mkMeterInfoHistory Sample.builtins "Холодная вода" "123"
         [Sample.reading 736731 10 2 "сайт";
          Sample.reading 736700 10 2 "сайт"]].
Proof.
  apply (@meters_history_dedup Sample.builtins Sample.utils
           (fun _ _ _ => Ok SampleMore.page_with_repeat) 1 None None).
  vm_compute. reflexivity.
Defined.

(** Two rows with the same cells, the reading being NaN: the two
    readings are the same in every field, and both are kept. *)
Lemma meters_history_nan_counterexample :
  @Meters.meters_history_body SampleNaN.builtins SampleNaN.utils
    (fun _ _ _ => Ok [SampleNaN.nan_row; SampleNaN.nan_row]) 1 None None
  = Some (Ok [@Meters.mkMeterInfoHistory SampleNaN.builtins
                "Холодная вода" "123"
                [SampleNaN.nan_reading; SampleNaN.nan_reading]]).
Proof. vm_compute. reflexivity. Qed.

(** ** The session *)

Section SessionFacts.
Context `{Builtins} `{!Parsers}.
Import Session.
Variable E : env.

(** Case analysis on the innermost test of the goal. *)
Ltac break_inner :=
  match goal with
  | |- context [match ?x with _ => _ end] =>
      lazymatch x with
      | context [match _ with _ => _ end] => fail
      | _ => destruct x eqn:?
      end
  end.

Ltac unfold_io :=
  unfold open, close, api_check_only, open_body, close_body, _check_session,
    try_finally, discard, download_pdf_body, account_add_body,
    account_rm_body, pub_meters_info_body, _ajax, _update_accounts,
    _post, _get, _request in *;
  unfold bind, gets, ret, raise, lift, modify, acquire, release in *;
  unfold _account, account, accounts, rbind, opened, authorized, closed in *.

(** Symbolic execution: unfold the monad, then follow every branch. *)
Ltac run_io :=
  unfold_io; cbn in *;
  repeat (break_inner; cbn in *; try discriminate; try congruence);
  try (intuition congruence).

(** *** The invariant *)

Lemma keeps_ret {A : Type} (a : A) : keeps (ret a).
Proof. intros w Hw. exact Hw. Qed.

Lemma keeps_bind {A B : Type} (m : M A) (k : A -> M B) :
  keeps m -> (forall a, keeps (k a)) -> keeps (bind m k).
Proof.
  intros Hm Hk w Hw. unfold bind. specialize (Hm w Hw).
  destruct (m w) as [a w' | e w' | w']; cbn in *; auto.
  now apply Hk.
Qed.

Lemma keeps_gets {A : Type} (f : ErkcClient -> A) : keeps (gets f).
Proof. intros w Hw. exact Hw. Qed.

Lemma keeps_check_session : keeps (_check_session E).
Proof.
  intros [[lg pw tk ac cl] sm t sn] Hs. unfold sound in *. run_io.
Qed.

Lemma keeps_open_body l p a : keeps (open_body E l p a).
Proof.
  intros [[lg pw [tk |] [ac |] [|]] sm t sn] Hs.
  all: unfold sound in *; cbn in Hs.
  all: run_io.
Qed.

Lemma keeps_close_body ct : keeps (close_body E ct).
Proof.
  intros [[lg pw tk ac cl] sm t sn] Hs. unfold sound in *. run_io.
Qed.

Lemma keeps_open l p a : keeps (open E l p a).
Proof.
  apply keeps_bind; [apply keeps_check_session | intros _].
  apply keeps_open_body.
Qed.

Lemma keeps_close ct : keeps (close E ct).
Proof.
  apply keeps_bind; [apply keeps_check_session | intros _].
  apply keeps_close_body.
Qed.

Lemma keeps_api {A : Type} ar co pub (func : M A) :
  keeps func -> keeps (api E ar co pub func).
Proof.
  intros Hfunc. unfold api.
  apply keeps_bind; [apply keeps_check_session | intros _].
  destruct co; [assumption |].
  apply keeps_bind;
    [destruct pub; [apply keeps_close | apply keeps_ret] | intros _].
  apply keeps_bind; [apply keeps_gets | intros o].
  apply keeps_bind;
    [destruct (negb o); [apply keeps_open | apply keeps_ret] | intros _].
  apply keeps_bind; [apply keeps_gets | intros a].
  apply keeps_bind; [| intros _; assumption].
  destruct ((if pub then false else ar) && negb a);
    [apply keeps_open | apply keeps_ret].
Qed.

Lemma keeps_aenter : keeps (aenter E).
Proof.
  intros w Hw. unfold aenter.
  pose proof (keeps_open None None true w Hw) as Hopen.
  destruct (open E None None true w) as [a w1 | e w1 | w1]; cbn in *; auto.
  pose proof (keeps_close true w1 Hopen) as Hclose.
  destruct (close E true w1); cbn in *; auto.
Qed.

Lemma keeps_download_pdf_body accrual peni :
  keeps (download_pdf_body E accrual peni).
Proof.
  intros [[lg pw tk ac cl] sm t sn] Hs. unfold sound in *. run_io.
Qed.

Lemma keeps_account_add_body acc amount :
  keeps (account_add_body E acc amount).
Proof.
  intros [[lg pw [tk |] [ac |] cl] sm t sn] Hs.
  all: unfold sound in *; cbn in Hs.
  all: run_io.
Qed.

Lemma keeps_account_rm_body acc : keeps (account_rm_body E acc).
Proof.
  intros [[lg pw [tk |] [ac |] cl] sm t sn] Hs.
  all: unfold sound in *; cbn in Hs.
  all: run_io.
Qed.

Lemma keeps_pub_meters_info_body acc : keeps (pub_meters_info_body E acc).
Proof.
  intros [[lg pw tk ac cl] sm t sn] Hs. unfold sound in *. run_io.
Qed.

Lemma keeps_run_call c : keeps (run_call E c).
Proof.
  destruct c; cbn [run_call].
  - apply keeps_check_session.
  - apply keeps_open.
  - apply keeps_close.
  - apply keeps_aenter.
  - apply keeps_close.
  - apply keeps_bind; [| intros; apply keeps_ret].
    apply keeps_api, keeps_download_pdf_body.
  - apply keeps_api, keeps_account_add_body.
  - apply keeps_api, keeps_account_rm_body.
  - apply keeps_bind; [| intros; apply keeps_ret].
    apply keeps_api, keeps_pub_meters_info_body.
Qed.

Lemma keeps_run cs : keeps (run E cs).
Proof.
  induction cs as [| c cs IH]; intros w Hw; cbn [run]; [exact Hw |].
  pose proof (keeps_run_call c w Hw) as Hc.
  destruct (run_call E c w); cbn in Hc; auto.
Qed.

Lemma sound_session_inv c : sound c -> session_inv c.
Proof.
  destruct c as [lg pw [tk |] [ac |] [|]];
    unfold session_inv, sound, opened, authorized, closed; cbn;
    intuition congruence.
Qed.

(** C5. Whatever the portal answers and whatever calls are made on a
    new client ([_check_session], [open], [close], the context manager,
    operations behind the decorator), the client then satisfies: no
    token implies not opened, no accounts implies not authorized, no
    token implies no accounts, and, while the transport is not closed,
    not opened implies no token and not authorized implies no
    accounts. *)
Theorem session_invariant cs login password :
  session_inv (self (final (run E cs (init login password)))).
Proof.
  apply sound_session_inv, keeps_run. intros _. reflexivity.
Qed.

(** *** [close] *)

Ltac run_io_then tac :=
  unfold_io; cbn in *;
  repeat (break_inner; cbn in *; try discriminate; try congruence);
  tac.

(** C1. On a session that is authorized, with a session cookie that
    has not expired, [close] releases one permit and closes the
    transport when asked to, whatever [/logout] answers; when [/logout]
    answers and its body is read, [close] returns and the token and the
    accounts are reset; when the request or the reading raises, [close]
    raises the same exception. *)
Theorem close_resets_on_logout ct w :
  live_cookie (utcnow E (tick w)) (cookie_jar E (tick w)) = Ok true ->
  authorized (self w) = true ->
  semaphore (final (close E ct w)) = S (semaphore w) /\
  cli_closed (self (final (close E ct w))) = ct /\
  match server E (S (tick w)) get_logout with
  | Ok x =>
      match text x with
      | Ok _ =>
          exists w', close E ct w = Return tt w' /\
                     _token (self w') = None /\ _accounts (self w') = None
      | Err e => exists w', close E ct w = Raise e w'
      end
  | Err e => exists w', close E ct w = Raise e w'
  end.
Proof.
  destruct w as [[lg pw tk [ac |] [|]] sm t sn]; cbn;
    intros Hlive Hauth; try discriminate Hauth.
  unfold get_logout. destruct ct.
  all: unfold_io; cbn; revert Hlive.
  all: destruct (live_cookie (utcnow E t) (cookie_jar E t)) as [[|] |];
    intros Hlive; try discriminate Hlive; cbn.
  all: repeat (break_inner; cbn; try discriminate; try congruence).
  all: repeat split; eauto.
Qed.

Lemma check_session_returns w w' :
  _check_session E w = Return tt w' ->
  (self w' = self w \/ self w' = _reset (self w)) /\
  semaphore w' = semaphore w /\ tick w' = S (tick w) /\ sent w' = sent w.
Proof.
  destruct w as [c sm t sn].
  run_io_then ltac:(intros [= <-]; cbn; auto).
Qed.

Lemma close_returns ct w w' :
  close E ct w = Return tt w' ->
  cli_closed (self w') = ct || cli_closed (self w) /\
  semaphore w' = S (semaphore w) /\
  (tick w < tick w')%nat /\
  ((authorized (self w) = false /\ _token (self w') = _token (self w) /\
    _accounts (self w') = _accounts (self w) /\ sent w' = sent w) \/
   (_token (self w') = None /\ _accounts (self w') = None)).
Proof.
  destruct w as [[lg pw tk [ac |] [|]] sm t sn].
  all: run_io_then ltac:(intros [= <-]; cbn; repeat split;
                         auto using orb_true_r, orb_false_r; try lia).
Qed.

Lemma open_anonymous_returns w w' :
  opened (self w) = false ->
  open E None None false w = Return tt w' ->
  cli_closed (self w') = cli_closed (self w) /\
  (_accounts (self w') = _accounts (self w) \/ _accounts (self w') = None) /\
  exists x html tok,
    server E (S (tick w)) get_login = Ok x /\ text x = Ok html /\
    parse_token html = Ok tok /\ _token (self w') = Some tok /\
    sent w' = sent w ++ [get_login] /\ tick w' = S (S (tick w)).
Proof.
  unfold get_login.
  destruct w as [[lg pw [tk |] ac [|]] sm t sn]; cbn; try discriminate.
  all: intros _.
  all: run_io_then ltac:(intros [= <-]; cbn; repeat split; auto;
                         eexists _, _, _; repeat split; eauto).
Qed.

(** *** The guard of a public operation *)

Lemma api_guard {A : Type} ar pub (func : M A) w :
  api E ar false pub func w =
  match guard E ar pub w with
  | Return _ w' => func w'
  | Raise e w' => Raise e w'
  | Blocked w' => Blocked w'
  end.
Proof.
  unfold guard, api, bind, ret.
  repeat match goal with
         | |- context [match ?m ?x with Return _ _ => _ | _ => _ end] =>
             is_var x; destruct (m x) as [? ? | ? ? | ?]; try reflexivity
         | |- context [match (if ?b then _ else _) ?x with _ => _ end] =>
             destruct b
         | |- context [match gets ?f ?x with _ => _ end] =>
             unfold gets at 1
         end.
Qed.

(** What a [close] that returns has done: the check of the cookie,
    the logout of a session that is authorized after it, and the
    release of one permit. *)
Lemma close_effect w w' :
  close E false w = Return tt w' ->
  exists w0,
    _check_session E w = Return tt w0 /\
    semaphore w' = S (semaphore w) /\
    cli_closed (self w') = cli_closed (self w) /\
    if authorized (self w0) then
      self w' = _reset (self w0) /\
      sent w' = sent w ++ [get_logout] /\ tick w' = S (tick w0)
    else
      self w' = self w0 /\ sent w' = sent w /\ tick w' = tick w0.
Proof.
  unfold get_logout.
  destruct w as [[lg pw tk [ac |] [|]] sm t sn].
  all: run_io_then ltac:(intros [= <-]; eexists; split; [reflexivity |];
                         cbn; repeat split; auto).
Qed.

Lemma open_anonymous_permit w w' :
  opened (self w) = false ->
  open E None None false w = Return tt w' ->
  semaphore w = S (semaphore w').
Proof.
  destruct w as [[lg pw [tk |] ac [|]] sm t sn]; cbn; try discriminate.
  all: intros _.
  all: run_io_then ltac:(intros [= <-]; cbn; auto).
Qed.

(** C4. When the guard of a public operation lets the body run, on a
    transport that is not closed, the body runs on a session that is
    opened and not authorized, and the transport is still not closed.
    The guard has called [close]: after the check of the cookie by the
    guard and the one by [close], a session that is authorized is
    logged out, and a permit is released.  When the session is then
    opened and not authorized, [close] leaves it as it is: the body
    runs on the client as it was, no request has been sent, and the
    permit stays released.  In every other case the session is new:
    [open] has taken the permit back and has read the login page, the
    last request before the body, and the token is the one of that
    page. *)
Theorem public_guard_anonymous {A : Type} ar (func : M A) w w' :
  cli_closed (self w) = false ->
  guard E ar true w = Return tt w' ->
  api E ar false true func w = func w' /\
  opened (self w') = true /\
  authorized (self w') = false /\
  cli_closed (self w') = false /\
  exists w0 w1,
    _check_session E w = Return tt w0 /\
    _check_session E w0 = Return tt w1 /\
    if opened (self w1) && negb (authorized (self w1)) then
      self w' = self w /\ sent w' = sent w /\
      semaphore w' = S (semaphore w)
    else
      semaphore w' = semaphore w /\
      sent w' =
      sent w ++ (if authorized (self w1) then [get_logout] else [])
             ++ [get_login] /\
      exists t x html tok,
        tick w' = S t /\ (tick w1 < t)%nat /\
        server E t get_login = Ok x /\ text x = Ok html /\
        parse_token html = Ok tok /\ _token (self w') = Some tok.
Proof.
  intros Hcl Hguard. split; [now rewrite api_guard, Hguard |].
  revert Hguard. unfold guard, api. unfold bind at 1.
  destruct (_check_session E w) as [[] w0 | |] eqn:Hcheck; try discriminate.
  pose proof (check_session_returns _ _ Hcheck)
    as (Hself0 & Hsem0 & Htick0 & Hsent0).
  unfold bind at 1.
  destruct (close E false w0) as [[] w2 | |] eqn:Hclose; try discriminate.
  apply close_effect in Hclose
    as (w1 & Hcheck1 & Hsem2 & Hcl2 & Hclose).
  pose proof (check_session_returns _ _ Hcheck1)
    as (Hself1 & _ & Htick1 & _).
  assert (Hcl0 : cli_closed (self w0) = false)
    by (destruct Hself0 as [-> | ->]; assumption).
  assert (Hcl1 : cli_closed (self w1) = false)
    by (destruct Hself1 as [-> | ->]; assumption).
  rewrite Hcl0 in Hcl2.
  unfold bind at 1, gets at 1.
  destruct (authorized (self w1)) eqn:Hauth1.
  - (* logged out, then opened anew *)
    destruct Hclose as (Hself2 & Hsent2 & Htick2).
    assert (Hop2 : opened (self w2) = false).
    { rewrite Hself2. unfold opened. cbn. apply negb_false_iff.
      apply orb_true_r. }
    rewrite Hop2. cbn [negb]. unfold bind at 1.
    destruct (open E None None false w2) as [[] w3 | |] eqn:Hopen;
      try discriminate.
    pose proof (open_anonymous_permit _ _ Hop2 Hopen) as Hsem3.
    apply (open_anonymous_returns _ _ Hop2) in Hopen
      as (Hcl3 & Hacc3 & x & html & tok & Hx & Hhtml & Htok & Htok3
          & Hsent3 & Htick3).
    unfold bind, ret, gets. cbn. intros [= <-].
    assert (Hnone : _accounts (self w3) = None).
    { destruct Hacc3 as [-> | ->]; [| reflexivity]. now rewrite Hself2. }
    split; [unfold opened, closed; now rewrite Hcl3, Hcl2, Htok3 |].
    split; [unfold authorized; rewrite Hnone; cbn; now rewrite orb_true_r |].
    split; [congruence |].
    exists w0, w1. split; [reflexivity |]. split; [assumption |].
    rewrite Hauth1. cbn [negb]. rewrite andb_false_r.
    split; [lia |].
    split; [rewrite Hsent3, Hsent2, Hsent0, <- app_assoc; reflexivity |].
    exists (S (tick w2)), x, html, tok.
    repeat split; auto. lia.
  - destruct Hclose as (Hself2 & Hsent2 & Htick2).
    rewrite Hself2.
    destruct (opened (self w1)) eqn:Hop1; cbn [negb].
    + (* the session is kept *)
      unfold bind, ret, gets. cbn. intros [= <-].
      assert (Hself : self w1 = self w).
      { assert (Htok1 : _token (self w1) <> None).
        { unfold opened in Hop1. destruct (_token (self w1));
            [discriminate |]. cbn in Hop1. rewrite orb_true_r in Hop1.
          discriminate. }
        destruct Hself1 as [H1 | H1]; [| rewrite H1 in Htok1; now cbn in Htok1].
        rewrite H1 in *.
        destruct Hself0 as [H0' | H0']; [assumption |].
        rewrite H0' in Htok1. now cbn in Htok1. }
      rewrite Hself2.
      split; [assumption |].
      split; [unfold authorized, closed in *; assumption |].
      split; [congruence |].
      exists w0, w1. split; [reflexivity |]. split; [assumption |].
      rewrite Hop1, Hauth1. cbn.
      repeat split; congruence.
    + (* opened anew *)
      assert (Hop2 : opened (self w2) = false) by now rewrite Hself2.
      unfold bind at 1.
      destruct (open E None None false w2) as [[] w3 | |] eqn:Hopen;
        try discriminate.
      pose proof (open_anonymous_permit _ _ Hop2 Hopen) as Hsem3.
      apply (open_anonymous_returns _ _ Hop2) in Hopen
        as (Hcl3 & Hacc3 & x & html & tok & Hx & Hhtml & Htok & Htok3
            & Hsent3 & Htick3).
      unfold bind, ret, gets. cbn. intros [= <-].
      assert (Hnone : _accounts (self w3) = None).
      { unfold authorized, closed in Hauth1. rewrite Hcl1 in Hauth1.
        destruct Hacc3 as [-> | ->]; [| reflexivity]. rewrite Hself2.
        now destruct (_accounts (self w1)). }
      split; [unfold opened, closed; now rewrite Hcl3, Hcl2, Htok3 |].
      split; [unfold authorized; rewrite Hnone; cbn; now rewrite orb_true_r |].
      split; [congruence |].
      exists w0, w1. split; [reflexivity |]. split; [assumption |].
      rewrite Hop1, Hauth1. cbn [andb negb app].
      split; [lia |].
      split; [rewrite Hsent3, Hsent2, Hsent0; reflexivity |].
      exists (S (tick w2)), x, html, tok.
      repeat split; auto. lia.
Qed.

(** *** The semaphore *)




(** *** [download_pdf] *)

Lemma download_pdf_no_id (accrual : Accruals.Accrual) (peni : bool) w :
  str_truthy (if peni then Accruals.peni_id accrual
              else Accruals.bill_id accrual) = false ->
  download_pdf_body E accrual peni w = Return (@nil Byte.byte) w.
Proof.
  intros Hid. unfold download_pdf_body. now rewrite Hid.
Qed.

Lemma download_pdf_ajax_raises (accrual : Accruals.Accrual) (peni : bool)
    w e w1 :
  _ajax E "getReceipt" (Some (Accruals.account accrual))
    [("receiptId", pv (if peni then Accruals.peni_id accrual
                       else Accruals.bill_id accrual))] w = Raise e w1 ->
  download_pdf_body E accrual peni w = Return [] w1 \/
  download_pdf_body E accrual peni w = Return (@nil Byte.byte) w.
Proof.
  intros Hajax. unfold download_pdf_body.
  destruct (str_truthy _); cbn [negb]; [left; now rewrite Hajax | now right].
Qed.

(** A receipt file that cannot be fetched: the exception of the second
    request leaves [download_pdf]. *)
Lemma download_pdf_file_raises (accrual : Accruals.Accrual) (peni : bool)
    w j w1 p e :
  str_truthy (if peni then Accruals.peni_id accrual
              else Accruals.bill_id accrual) = true ->
  _ajax E "getReceipt" (Some (Accruals.account accrual))
    [("receiptId", pv (if peni then Accruals.peni_id accrual
                       else Accruals.bill_id accrual))] w = Return j w1 ->
  json_file j = Ok p ->
  server E (tick w1) (mkRequest "GET" p []) = Err e ->
  exists w2, download_pdf_body E accrual peni w = Raise e w2.
Proof.
  intros Hid Hajax Hfile Hget. unfold download_pdf_body.
  rewrite Hid. cbn [negb]. rewrite Hajax.
  unfold bind, lift, _get, _request. rewrite Hfile, Hget. eauto.
Qed.

(** *** Further properties of the session *)

Lemma live_cookie_find now jar :
  live_cookie now jar =
  match find SessionMore.is_session jar with
  | None => Ok false
  | Some c =>
      match strptime (expires c) with
      | Ok e => Ok (now <? e)
      | Err ex => Err ex
      end
  end.
Proof.
  induction jar as [| c jar IH]; cbn; [reflexivity |].
  unfold SessionMore.is_session at 1.
  destruct (key c =? "laravel_session")%string; [| assumption].
  unfold rbind. destruct (strptime (expires c)) as [e |]; [| reflexivity].
  now rewrite Z.ltb_antisym.
Qed.

(** X7: [_check_session] looks at the first cookie named [laravel_session]
    and at no other: without such a cookie the session is forgotten;
    with one, it is kept exactly when the clock is strictly before the
    expiry of the cookie (a cookie that expires at the current second
    forgets the session); and an expiry that cannot be read raises,
    the session left as it is. *)
Theorem check_session_first_cookie w :
  _check_session E w =
  match find SessionMore.is_session (cookie_jar E (tick w)) with
  | None => Return tt (SessionMore.forgotten (SessionMore.ticked w))
  | Some c =>
      match strptime (expires c) with
      | Ok e =>
          Return tt
            (if utcnow E (tick w) <? e then SessionMore.ticked w
             else SessionMore.forgotten (SessionMore.ticked w))
      | Err ex => Raise ex (SessionMore.ticked w)
      end
  end.
Proof.
  unfold _check_session. rewrite live_cookie_find.
  destruct (find SessionMore.is_session (cookie_jar E (tick w))) as [c |];
    [| reflexivity].
  destruct (strptime (expires c)) as [e |]; [| reflexivity].
  now destruct (utcnow E (tick w) <? e).
Qed.

Lemma existsb_eqb_In a l : existsb (Z.eqb a) l = true <-> In a l.
Proof.
  rewrite existsb_exists. split.
  - intros (x & Hx & Heq). apply Z.eqb_eq in Heq. now subst.
  - intros Hin. exists a. split; [assumption | apply Z.eqb_refl].
Qed.

Lemma account_bound c acc a :
  _account c acc = Ok a -> SessionMore.bound a c.
Proof.
  unfold _account, account, accounts, rbind, SessionMore.bound.
  destruct (_accounts c) as [l |]; [| destruct acc; discriminate].
  destruct acc as [a' |].
  - destruct (existsb (Z.eqb a') l) eqn:Hin; [| discriminate].
    intros [= <-]. exists l. split; [reflexivity | now apply existsb_eqb_In].
  - destruct l as [| a0 l]; [discriminate |].
    intros [= <-]. exists (a0 :: l). split; [reflexivity | now left].
Qed.

(** X8: [_ajax] asks the portal only about an account bound to the client:
    when the account resolves to [a], [a] is bound and the one request
    sent is the one for [a]; when it does not resolve, the exception is
    raised and nothing is sent. *)
Theorem ajax_bound_account func acc params w :
  match _account (self w) acc with
  | Ok a =>
      SessionMore.bound a (self w) /\
      sent (final (_ajax E func acc params w)) =
      sent w ++ [SessionMore.ajax_request a func params]
  | Err e => _ajax E func acc params w = Raise e w
  end.
Proof.
  destruct (_account (self w) acc) as [a | e] eqn:Hacc.
  - split; [now apply account_bound in Hacc |].
    unfold _ajax, bind, gets, lift, _get, _request. rewrite Hacc.
    unfold SessionMore.ajax_request.
    destruct (server E (tick w) _) as [x |]; cbn; [| reflexivity].
    now destruct (json_ x).
  - unfold _ajax, bind, gets, lift. now rewrite Hacc.
Qed.

(** X9: When [account_add] returns, the account is bound, whether it was
    already or the portal has just listed it. *)
Theorem account_add_bound_after acc amount w w' :
  account_add_body E acc amount w = Return tt w' ->
  SessionMore.bound (SessionMore.account_of acc) (self w').
Proof.
  unfold SessionMore.bound, SessionMore.account_of.
  destruct w as [[lg pw tk [ac |] cl] sm t sn]; destruct acc as [a | info].
  all: run_io_then ltac:(intros [= <-]; cbn; eexists;
                         (split; [reflexivity | apply existsb_eqb_In])).
  all: try assumption.
  all: match goal with
       | Hneg : negb (existsb _ _) = false |- _ =>
           apply negb_false_iff in Hneg; exact Hneg
       end.
Qed.

(** X10: When [account_rm] returns, the client still knows its accounts and
    the account is not one of them. *)
Theorem account_rm_unbound_after acc w w' :
  account_rm_body E acc w = Return tt w' ->
  exists l, _accounts (self w') = Some l /\ ~ In acc l.
Proof.
  destruct w as [[lg pw tk [ac |] cl] sm t sn].
  all: run_io_then ltac:(intros [= <-]; cbn; eexists;
                         (split; [reflexivity | rewrite <- existsb_eqb_In])).
  all: try congruence.
  all: match goal with
       | Hneg : negb (existsb _ _) = true |- _ =>
           apply negb_true_iff in Hneg; congruence
       end.
Qed.

(** X11: Binding an account that is bound, or unbinding one that is not,
    returns at once: nothing is sent and nothing changes. *)
Theorem account_binding_idempotent w :
  (forall acc amount,
     SessionMore.bound (SessionMore.account_of acc) (self w) ->
     account_add_body E acc amount w = Return tt w) /\
  (forall a l,
     _accounts (self w) = Some l -> ~ In a l ->
     account_rm_body E a w = Return tt w).
Proof.
  split.
  - intros acc amount (l & Hl & Hin). apply existsb_eqb_In in Hin.
    destruct acc as [a | info]; cbn in Hin;
      unfold account_add_body, bind, gets, lift, accounts, ret;
      rewrite Hl; cbn; now rewrite Hin.
  - intros a l Hl Hout. rewrite <- existsb_eqb_In in Hout.
    apply not_true_is_false in Hout.
    unfold account_rm_body, bind, gets, lift, accounts, ret.
    rewrite Hl. cbn. now rewrite Hout.
Qed.

(** X12: Without a positive amount [account_add] sends nothing: it returns
    when the account is already bound, and raises otherwise, the world
    left as it is. *)
Theorem account_add_needs_amount acc amount w :
  float_le0 (SessionMore.amount_of acc amount) = true ->
  match account_add_body E acc amount w with
  | Return _ w' =>
      w' = w /\ SessionMore.bound (SessionMore.account_of acc) (self w)
  | Raise e w' => w' = w /\ (e = ValueError \/ e = AuthorizationRequired)
  | Blocked _ => False
  end.
Proof.
  unfold SessionMore.amount_of, SessionMore.bound, SessionMore.account_of.
  intros Hle.
  unfold account_add_body, bind, gets, lift, accounts, ret, raise.
  destruct (_accounts (self w)) as [l |] eqn:Hl; cbn; [| auto].
  destruct acc as [a | info]; cbn.
  - destruct (existsb (Z.eqb a) l) eqn:Hin.
    + split; [reflexivity |]. exists l. split; [reflexivity |].
      now apply existsb_eqb_In.
    + rewrite Hle. auto.
  - destruct (existsb (Z.eqb (pa_account info)) l) eqn:Hin.
    + split; [reflexivity |]. exists l. split; [reflexivity |].
      now apply existsb_eqb_In.
    + rewrite Hle. auto.
Qed.

(** *** What [open] leaves behind *)

Lemma open_fields l p a w w' :
  open E l p a w = Return tt w' ->
  _token (self w') <> None /\
  (a = true -> _accounts (self w') <> None) /\
  cli_closed (self w') = cli_closed (self w).
Proof.
  destruct w as [[lg pw [tk |] [ac |] [|]] sm t sn]; destruct a.
  all: run_io_then ltac:(intros [= <-]; cbn; repeat split; congruence).
Qed.

(** X13: When [open] returns, the client has a token; when it was asked to
    authorize, the client has its accounts too.  [open] never closes
    the transport. *)
Theorem open_returns_ready l p a w w' :
  open E l p a w = Return tt w' ->
  _token (self w') <> None /\
  (a = true -> _accounts (self w') <> None) /\
  cli_closed (self w') = cli_closed (self w).
Proof. apply open_fields. Qed.

(** X14: Without a login or without a password, given or remembered, [open]
    cannot authorize a session that is not authorized: it does not
    return, it posts nothing (the login page is the only request it
    can have sent), and the accounts stay unknown. *)
Theorem open_missing_credentials l p w :
  str_truthy (SessionMore.effective l (_login (self w)))
  && str_truthy (SessionMore.effective p (_password (self w))) = false ->
  authorized (self w) = false ->
  match open E l p true w with
  | Return _ _ => False
  | Raise _ w' | Blocked w' =>
      (sent w' = sent w \/ sent w' = sent w ++ [get_login]) /\
      authorized (self w') = false
  end.
Proof.
  unfold SessionMore.effective, get_login.
  destruct w as [[lg pw [tk |] [ac |] [|]] sm t sn]; cbn;
    intros Hcred Hauth; try discriminate Hauth.
  all: unfold_io; cbn; rewrite ?Hcred; cbn.
  all: repeat (break_inner; cbn; rewrite ?Hcred; cbn;
               try discriminate; try congruence).
  all: auto.
Qed.

(** X15: A login that the portal answers at the address it was first sent
    to is refused: on a live session that is opened and not authorized,
    [open] raises [AuthorizationError]; the client is as it was, in
    particular the login and password it remembered. *)
Theorem open_rejected_login l p w tok x h0 hs :
  live_cookie (utcnow E (tick w)) (cookie_jar E (tick w)) = Ok true ->
  cli_closed (self w) = false ->
  _token (self w) = Some tok ->
  _accounts (self w) = None ->
  str_truthy (SessionMore.effective l (_login (self w)))
  && str_truthy (SessionMore.effective p (_password (self w))) = true ->
  server E (S (tick w))
    (SessionMore.login_post (SessionMore.effective l (_login (self w)))
       (SessionMore.effective p (_password (self w))) tok) = Ok x ->
  history x = h0 :: hs ->
  url x = h0 ->
  exists w',
    open E l p true w = Raise AuthorizationError w' /\
    self w' = self w /\ semaphore w' = semaphore w.
Proof.
  unfold SessionMore.effective, SessionMore.login_post.
  destruct w as [[lg pw tk ac cl] sm t sn]; cbn.
  intros Hlive -> -> -> Hcred Hx Hh Hu.
  unfold_io; cbn. rewrite Hlive. cbn. rewrite Hcred. cbn.
  rewrite Hx. cbn. unfold getitem. rewrite Hh. cbn.
  rewrite Hu, String.eqb_refl. eauto.
Qed.

(** X16: A session opened from nothing: when [open] authorizes a client that
    has no session, it reads the login page once and posts once; the
    token it posts, and keeps, is the one of that page; the login and
    password it posts are the ones given, or else the ones remembered,
    and they are the ones it remembers afterwards. *)
Theorem open_posts_fresh_token l p w w' :
  _token (self w) = None ->
  _accounts (self w) = None ->
  open E l p true w = Return tt w' ->
  exists x html tok,
    server E (S (tick w)) get_login = Ok x /\
    text x = Ok html /\ parse_token html = Ok tok /\
    _token (self w') = Some tok /\
    sent w' =
    sent w ++
    [get_login;
     SessionMore.login_post (SessionMore.effective l (_login (self w)))
       (SessionMore.effective p (_password (self w))) tok] /\
    _login (self w') = SessionMore.effective l (_login (self w)) /\
    _password (self w') = SessionMore.effective p (_password (self w)).
Proof.
  unfold SessionMore.effective, SessionMore.login_post, get_login.
  destruct w as [[lg pw tk ac [|]] sm t sn]; cbn; intros -> ->.
  all: run_io_then ltac:(intros [= <-]; cbn; eexists _, _, _;
                         repeat split; eauto).
  all: rewrite <- app_assoc; reflexivity.
Qed.

(** *** The guard of an operation that needs the account *)

Lemma opened_token c : opened c = true -> _token c <> None.
Proof.
  unfold opened. destruct (_token c); [discriminate |].
  cbn. now rewrite orb_true_r.
Qed.

Lemma authorized_accounts c : authorized c = true -> _accounts c <> None.
Proof.
  unfold authorized. destruct (_accounts c); [discriminate |].
  cbn. now rewrite orb_true_r.
Qed.

Lemma token_opened c :
  cli_closed c = false -> _token c <> None -> opened c = true.
Proof.
  unfold opened, closed. intros ->. now destruct (_token c).
Qed.

Lemma accounts_authorized c :
  cli_closed c = false -> _accounts c <> None -> authorized c = true.
Proof.
  unfold authorized, closed. intros ->. now destruct (_accounts c).
Qed.

Lemma guard_private_fields w w' :
  guard E true false w = Return tt w' ->
  _token (self w') <> None /\ _accounts (self w') <> None /\
  cli_closed (self w') = cli_closed (self w).
Proof.
  unfold guard, api. unfold bind at 1.
  destruct (_check_session E w) as [[] w0 | |] eqn:Hcheck; try discriminate.
  apply check_session_returns in Hcheck as (Hself0 & _ & _ & _).
  assert (Hcl0 : cli_closed (self w0) = cli_closed (self w))
    by (destruct Hself0 as [-> | ->]; reflexivity).
  cbn [andb]. unfold bind at 1, ret at 1. unfold bind at 1, gets at 1.
  unfold bind at 1.
  assert (Hfirst : forall w1,
            (if negb (opened (self w0)) then open E None None true
             else ret tt) w0 = Return tt w1 ->
            _token (self w1) <> None /\
            cli_closed (self w1) = cli_closed (self w0)).
  { intros w1. destruct (opened (self w0)) eqn:Hop; cbn [negb].
    - intros [= <-]. split; [now apply opened_token | reflexivity].
    - intros Hopen.
      pose proof (open_fields _ _ _ _ _ Hopen) as (Htok & _ & Hcl).
      now split. }
  destruct ((if negb (opened (self w0)) then open E None None true
             else ret tt) w0) as [[] w1 | |]; try discriminate.
  destruct (Hfirst w1 eq_refl) as [Htok1 Hcl1]. clear Hfirst.
  unfold bind at 1, gets at 1.
  destruct (authorized (self w1)) eqn:Hauth; cbn [negb andb].
  - unfold bind, ret. intros [= <-].
    repeat split; [assumption | now apply authorized_accounts | congruence].
  - unfold bind at 1.
    destruct (open E None None true w1) as [[] w2 | |] eqn:Hopen;
      try discriminate.
    unfold ret. intros [= <-].
    pose proof (open_fields _ _ _ _ _ Hopen) as (Htok2 & Hacc2 & Hcl2).
    repeat split; [assumption | now apply Hacc2 | congruence].
Qed.

(** X17: When the guard of an operation that requires authorization lets
    the body run, the client has a token and its accounts; on a
    transport that is not closed, the session is then opened and
    authorized.  The body is what the operation does from there. *)
Theorem guard_private_authorized {A : Type} (func : M A) w w' :
  guard E true false w = Return tt w' ->
  api E true false false func w = func w' /\
  _token (self w') <> None /\ _accounts (self w') <> None /\
  (cli_closed (self w) = false ->
   opened (self w') = true /\ authorized (self w') = true).
Proof.
  intros Hguard. split; [now rewrite api_guard, Hguard |].
  pose proof (guard_private_fields _ _ Hguard) as (Htok & Hacc & Hcl).
  split; [assumption |]. split; [assumption |].
  intros Hopen. rewrite <- Hcl in Hopen. split.
  - now apply token_opened.
  - now apply accounts_authorized.
Qed.

(** X18: On a live session that is opened and authorized, the guard of an
    operation that is not public does nothing but look at the cookie:
    no request, no move of the semaphore, the client as it was. *)
Theorem guard_private_noop ar w :
  live_cookie (utcnow E (tick w)) (cookie_jar E (tick w)) = Ok true ->
  opened (self w) = true ->
  authorized (self w) = true ->
  guard E ar false w = Return tt (SessionMore.ticked w).
Proof.
  unfold SessionMore.ticked.
  destruct w as [[lg pw [tk |] [ac |] [|]] sm t sn]; cbn;
    intros Hlive Hop Hauth; try discriminate.
  unfold guard, api. unfold_io. cbn. rewrite Hlive. cbn.
  now destruct ar.
Qed.

(** X19: A session whose cookie has expired while the semaphore holds no
    permit cannot be opened again by an operation that is not public:
    the guard forgets the session, [open] asks for a permit, and the
    call waits for ever. *)
Theorem expired_session_blocks {A : Type} ar (func : M A) w b :
  live_cookie (utcnow E (tick w)) (cookie_jar E (tick w)) = Ok false ->
  live_cookie (utcnow E (S (tick w))) (cookie_jar E (S (tick w))) = Ok b ->
  semaphore w = 0%nat ->
  exists w',
    api E ar false false func w = Blocked w' /\
    _token (self w') = None /\ sent w' = sent w.
Proof.
  destruct w as [[lg pw tk ac cl] sm t sn]; cbn.
  intros Hlive Hnext ->.
  unfold api. unfold_io. cbn. rewrite Hlive. cbn.
  rewrite orb_true_r. cbn. rewrite Hnext.
  destruct b; cbn; rewrite ?orb_true_r; cbn; eauto.
Qed.

(** *** [download_pdf] and [__aenter__] *)

(** X20: A receipt whose account is not bound to the client, like a receipt
    without document, gives empty data: the exception of the account
    is swallowed with those of the request, and nothing is sent. *)
Theorem download_pdf_unbound (accrual : Accruals.Accrual) (peni : bool) w e :
  _account (self w) (Some (Accruals.account accrual)) = Err e ->
  download_pdf_body E accrual peni w = Return (@nil Byte.byte) w.
Proof.
  intros Hacc. unfold download_pdf_body.
  destruct (str_truthy _); cbn [negb]; [| reflexivity].
  unfold _ajax, bind, gets, lift. now rewrite Hacc.
Qed.


End SessionFacts.

(** An anonymous session that is closed with its transport keeps its
    token: the token is there and the session is not opened. *)
Lemma session_invariant_counterexample :
  ~ Session.stated_inv
      (Session.self
         (Session.final
            (@Session.run Sample.builtins Sample.parsers Sample.healthy
               [Session.Open None None false; Session.Close true]
               Sample.anonymous))).
Proof.
  intros [[_ Htoken] _]. cbn in Htoken.
  specialize (Htoken eq_refl). discriminate.
Qed.

(** On the healthy portal, [close] logs the user out and forgets the
    token and the accounts. *)
Lemma close_resets_on_logout_witness :
  exists w',
    @Session.close Sample.builtins Sample.healthy true
      (Sample.logged_in Sample.healthy) = Session.Return tt w' /\
    Session._token (Session.self w') = None /\
    Session._accounts (Session.self w') = None.
Proof.
  destruct (@close_resets_on_logout Sample.builtins
              Sample.healthy true (Sample.logged_in Sample.healthy)
              eq_refl eq_refl) as (_ & _ & Hreset).
  exact Hreset.
Defined.

(** When [/logout] cannot be reached, [close] raises and the session
    keeps its token and its accounts. *)
Lemma close_reset_counterexample :
  Session.authorized (Session.self (Sample.logged_in Sample.logout_down)) = true /\
  match @Session.close Sample.builtins Sample.logout_down true
          (Sample.logged_in Sample.logout_down) with
  | Session.Raise ClientError w' =>
      Session._token (Session.self w') = Some "1" /\
      Session._accounts (Session.self w') = Some [42]
  | _ => False
  end.
Proof.
  vm_compute. repeat split.
Qed.



(** C3. The failing input of [download_pdf]: the session is authorized,
    the receipt has a bill identifier, [getReceipt] answers with the
    path of the file, and the request for the file raises: the
    exception leaves [download_pdf], where the docstring promises empty
    data on failure. *)
Theorem download_pdf_file_failure_propagates :
  match @Session.download_pdf Sample.builtins Sample.parsers Sample.file_down
          Sample.receipt_A false (Sample.logged_in Sample.file_down) with
  | Session.Raise ClientError _ => True
  | _ => False
  end.
Proof.
  vm_compute. exact I.
Qed.

(** A public operation called on an authorized session runs on a new
    anonymous session. *)
Lemma public_guard_anonymous_witness :
  Session.opened
    (Session.self
       (Session.final
          (@Session.guard Sample.builtins Sample.parsers Sample.healthy true
             true (Sample.logged_in Sample.healthy)))) = true /\
  Session.authorized
    (Session.self
       (Session.final
          (@Session.guard Sample.builtins Sample.parsers Sample.healthy true
             true (Sample.logged_in Sample.healthy)))) = false.
Proof.
  destruct (@public_guard_anonymous Sample.builtins Sample.parsers
              Sample.healthy unit true (Session.ret tt)
              (Sample.logged_in Sample.healthy)
              (Session.final
                 (@Session.guard Sample.builtins Sample.parsers Sample.healthy
                    true true (Sample.logged_in Sample.healthy)))
              eq_refl eq_refl) as (_ & Hopened & Hanonymous & _).
  split; assumption.
Defined.

(** A public operation called on a session that is opened and not
    authorized runs on that session: the token is the one it had and
    the only request of the call is the one of the body, no login page
    is read. *)
Lemma public_guard_counterexample :
  Session.opened (Session.self (Sample.visiting Sample.healthy)) = true /\
  Session.authorized (Session.self (Sample.visiting Sample.healthy)) = false /\
  match @Session.pub_meters_info Sample.builtins Sample.parsers Sample.healthy 5
          (Sample.visiting Sample.healthy) with
  | Session.Return _ w' =>
      Session._token (Session.self w') =
      Session._token (Session.self (Sample.visiting Sample.healthy)) /\
      map Session.path (Session.sent w') =
      map Session.path (Session.sent (Sample.visiting Sample.healthy))
      ++ ["/counters/5"]
  | _ => False
  end.
Proof.
  vm_compute. repeat split.
Qed.

(** * Further properties *)

(** ** [payments_history] *)

Section PaymentsFacts.
Context `{Utils} `{!Payments}.
Import PaymentsHistory.

Lemma payments_loop_filter resp ps :
  Forall2 decodes resp ps ->
  forall out, payments_loop resp out = Ok (out ++ filter paid ps).
Proof.
  induction 1 as [| row p resp ps Hrow _ IH]; intros out; cbn.
  - now rewrite app_nil_r.
  - unfold decodes in Hrow. rewrite Hrow, IH. unfold paid.
    destruct (float_truthy (payment_summa p)); [| reflexivity].
    now rewrite <- app_assoc.
Qed.

Lemma payments_loop_decodes resp :
  forall out res,
    payments_loop resp out = Ok res -> exists ps, Forall2 decodes resp ps.
Proof.
  induction resp as [| row resp IH]; intros out res; cbn.
  - intros _. exists []. constructor.
  - destruct (payment_row row) as [p |] eqn:Hrow; [| discriminate].
    intros Hloop. destruct (IH _ _ Hloop) as [ps Hps].
    exists (p :: ps). now constructor.
Qed.

(** X1: [payments_history] returns exactly when every row of the answer
    decodes into a payment, and then it returns, in the order of the
    answer, the payments whose amount is not zero: a zero payment is
    left out and the payments after it are kept. *)
Theorem payments_history_filter resp out :
  payments_history_rows resp = Ok out <->
  exists ps, Forall2 decodes resp ps /\ out = filter paid ps.
Proof.
  unfold payments_history_rows. split.
  - intros Hloop. destruct (payments_loop_decodes _ _ _ Hloop) as [ps Hps].
    exists ps. split; [assumption |].
    rewrite (payments_loop_filter _ _ Hps) in Hloop. now injection Hloop.
  - intros (ps & Hps & ->). now rewrite (payments_loop_filter _ _ Hps).
Qed.

End PaymentsFacts.

(** ** [accruals_history], read backwards *)

Section AccrualsHistorySound.
Context `{Utils} `{!MonthAccruals}.
Import Accruals.

Lemma month_loop_sound acc resp :
  forall out0 out,
    month_loop acc resp out0 = Ok out ->
    exists accs pre rest,
      out = out0 ++ accs /\ resp = pre ++ rest /\
      Forall2 (charged acc) pre accs /\ stops_at acc rest.
Proof.
  induction resp as [| row resp IH]; intros out0 out; cbn.
  - intros [= <-]. exists [], [], []. rewrite app_nil_r.
    repeat split; [constructor | now left].
  - destruct (month_row acc row) as [a |] eqn:Hrow; [| discriminate].
    destruct (float_truthy (month_summa a)) eqn:Hsum.
    + intros Hloop.
      destruct (IH _ _ Hloop) as (accs & pre & rest & -> & -> & Hpre & Hrest).
      exists (a :: accs), (row :: pre), rest. rewrite <- app_assoc.
      repeat split; [constructor; [split |]; assumption | assumption].
    + intros [= <-]. exists [], [], (row :: resp). rewrite app_nil_r.
      repeat split; [constructor |]. right. now exists row, resp, a.
Qed.

(** X2: Whenever [accruals_history] returns, no record of its result has a
    zero total, the records are the decoding of the leading rows of the
    answer, and what follows these rows is nothing or starts with a row
    of zero total. *)
Theorem accruals_history_sound acc resp out :
  accruals_history_rows acc resp = Ok out ->
  Forall (fun a => float_truthy (month_summa a) = true) out /\
  exists pre rest,
    resp = pre ++ rest /\ Forall2 (charged acc) pre out /\ stops_at acc rest.
Proof.
  intros Hloop.
  destruct (month_loop_sound _ _ _ _ Hloop) as (accs & pre & rest & -> & -> & Hpre & Hrest).
  cbn. split; [| now exists pre, rest].
  clear Hloop Hrest. induction Hpre as [| row a pre accs [_ Hsum] _ IH];
    constructor; assumption.
Qed.

End AccrualsHistorySound.

Lemma accruals_history_sound_witness :
  Forall (fun a => negb (hd 0 (snd a) =? 0) = true) [(7, 738156, [500])].
Proof.
  apply (@accruals_history_sound Sample.builtins Sample.utils
           Sample.month_accruals 7
           [["738156"; "500"]; ["738187"; "0"]; ["738216"; "300"]]
           [(7, 738156, [500])]).
  reflexivity.
Defined.

(** ** [year_accruals]: the dates a limit keeps *)

Section YearAccrualsDates.
Context `{Utils}.
Import Accruals.

Lemma apply_row_keys acc db r db' :
  apply_row acc db r = Ok (Some db') ->
  exists ext, map fst db' = map fst db ++ ext.
Proof.
  unfold apply_row.
  destruct (r_tag r =? "общая")%string;
    [| destruct (r_tag r =? "пени")%string; [| discriminate]];
    intros [= <-]; rewrite dict_modify_keys; unfold setdefault;
    (destruct (dict_mem Z.eqb (r_date r) db);
     [exists []; now rewrite app_nil_r
     | exists [r_date r]; now rewrite map_app]).
Qed.

Lemma year_loop_keys_grow acc rows :
  forall db db',
    year_loop acc None db rows = Ok db' ->
    exists ext, map fst db' = map fst db ++ ext.
Proof.
  induction rows as [| data rows IH]; intros db db'; cbn [year_loop].
  - intros [= <-]. exists []. now rewrite app_nil_r.
  - rewrite year_step_read.
    destruct (read_row data) as [r |]; [| discriminate].
    destruct (apply_row acc db r) as [[db1 |] | e] eqn:Hstep;
      [| now apply apply_row_goes_on in Hstep | discriminate].
    intros Hloop.
    destruct (apply_row_keys _ _ _ _ Hstep) as [ext1 Hext1].
    destruct (IH _ _ Hloop) as [ext Hext].
    exists (ext1 ++ ext). now rewrite Hext, Hext1, app_assoc.
Qed.

Lemma year_loop_dates acc rows db :
  year_loop acc None [] rows = Ok db ->
  map date (map snd db) = map fst db.
Proof.
  intros Hloop.
  destruct (year_loop_unlimited_reads acc rows [] db Hloop) as (rs & Hrs & Hrec).
  destruct (year_loop_grouped acc rs rows Hrs Hrec) as (db' & Hloop' & Hg).
  rewrite Hloop in Hloop'. injection Hloop' as <-.
  rewrite (grouped_values acc rs db Hg), group_by_date_dates.
  symmetry. apply Hg.
Qed.

(** X3: With a limit [n >= 1], the dates of the records [year_accruals]
    returns are the first [n] dates of the records it returns without
    limit, in the same order (all of them when there are fewer). *)
Theorem year_accruals_limit_first_dates acc n rows lim full :
  1 <= n ->
  year_accruals_rows acc (Some n) rows = Ok lim ->
  year_accruals_rows acc None rows = Ok full ->
  map date lim = firstn (Z.to_nat n) (map date full).
Proof.
  intros Hn. unfold year_accruals_rows.
  destruct (year_loop acc (Some n) [] rows) as [dbl |] eqn:Hlim;
    [| discriminate].
  destruct (year_loop acc None [] rows) as [dbf |] eqn:Hfull;
    [| discriminate].
  cbn. intros [= <-] [= <-].
  destruct (year_loop_limit_prefix acc n rows Hn [] dbl) as
    (pre & post & -> & Hpre & Hle & Hpost); [cbn; lia | assumption |].
  rewrite (year_loop_dates _ _ _ Hpre), (year_loop_dates _ _ _ Hfull).
  rewrite year_loop_app, Hpre in Hfull.
  destruct (year_loop_keys_grow _ _ _ _ Hfull) as [ext Hext].
  destruct Hpost as [-> | (data & d & rest & -> & _ & _ & Hfullen)].
  - cbn in Hfull. injection Hfull as <-.
    rewrite firstn_all2; [reflexivity |].
    rewrite length_map. lia.
  - rewrite Hext.
    replace (Z.to_nat n) with (List.length (map fst dbl) + 0)%nat
      by (rewrite length_map; lia).
    rewrite firstn_app_2. cbn. now rewrite app_nil_r.
Qed.

End YearAccrualsDates.

Lemma year_accruals_limit_first_dates_witness :
  map (@Accruals.date Sample.builtins)
    [Sample.accrual 7 738156 500 3 (Some "A") None]
  = firstn (Z.to_nat 1)
      (map (@Accruals.date Sample.builtins)
         [Sample.accrual 7 738156 500 3 (Some "A") (Some "B");
          Sample.accrual 7 738125 400 0 (Some "X") None]).
Proof.
  apply (@year_accruals_limit_first_dates Sample.builtins Sample.utils 7 1
           Sample.receipts_interleaved).
  - lia.
  - reflexivity.
  - reflexivity.
Defined.

(** ** [meters_history]: what the result is made of *)

Section MetersTidy.
Context `{Utils}.
Import Meters MetersMore.
Variable fetch : nat -> Z -> Z -> result (list (list string)).

Lemma key_eqb_spec (a b : key_t) : reflect (a = b) (key_eqb a b).
Proof.
  destruct a as [a1 a2], b as [b1 b2]. unfold key_eqb. cbn.
  destruct (String.eqb_spec a1 b1) as [-> | Hne]; cbn.
  - destruct (String.eqb_spec a2 b2) as [-> | Hne]; constructor; congruence.
  - constructor. congruence.
Qed.

Lemma dict_modify_Forall {K V : Type} (eqb : K -> K -> bool)
    (P : V -> Prop) k f (d : list (K * V)) :
  (forall v, P v -> P (f v)) ->
  Forall (fun kv => P (snd kv)) d ->
  Forall (fun kv => P (snd kv)) (dict_modify eqb k f d).
Proof.
  intros Hf. induction 1 as [| [k' v] d Hv Hd IH]; cbn; [constructor |].
  destruct (eqb k' k); constructor; cbn in *; auto.
Qed.

Lemma db_append_tidy k v d :
  consumed v -> tidy d -> tidy (db_append k v d).
Proof.
  intros Hv [Hkeys Hall]. unfold db_append, tidy.
  rewrite dict_modify_keys. split.
  - unfold setdefault.
    destruct (dict_mem key_eqb k d) eqn:Hmem; [assumption |].
    rewrite map_app. cbn.
    apply NoDup_app; [assumption | repeat constructor; intros [] |].
    intros x Hx [<- | []].
    apply (dict_mem_In key_eqb key_eqb_spec) in Hx. congruence.
  - apply (dict_modify_Forall key_eqb (Forall consumed)).
    + intros l Hl. apply Forall_app. split; [assumption | now constructor].
    + unfold setdefault. destruct (dict_mem key_eqb k d); [assumption |].
      apply Forall_app. split; [assumption | repeat constructor].
Qed.

Lemma row_step_tidy st row st' :
  row_step st row = Ok st' -> tidy (db st) -> tidy (db st').
Proof.
  unfold row_step.
  destruct row as [| x0 [| key [| date_s [| value_s [| consumption_s
    [| source_s [| ? ?]]]]]]]; try discriminate.
  destruct (str_to_date (substring 27 8 date_s)) as [e |]; [| discriminate].
  cbn.
  destruct (pyfloat consumption_s) as [c |]; [| discriminate]. cbn.
  destruct (float_truthy c) eqn:Hc; cbn.
  - destruct (pyfloat value_s) as [v |]; [| discriminate]. cbn.
    destruct (split_once separator key) as [k |]; [| discriminate].
    intros [= <-]. cbn. now apply db_append_tidy.
  - now intros [= <-].
Qed.

Lemma rows_loop_tidy rows :
  forall st st',
    rows_loop st rows = Ok st' -> tidy (db st) -> tidy (db st').
Proof.
  induction rows as [| row rows IH]; intros st st'; cbn.
  - now intros [= <-].
  - destruct (row_step st row) as [st1 |] eqn:Hstep; [| discriminate].
    intros Hloop Ht. apply (IH _ _ Hloop). now apply (row_step_tidy _ _ _ Hstep).
Qed.

Lemma page_turn_tidy n start e d :
  tidy d ->
  match page_turn fetch n start e d with
  | Ok (Stop d') | Ok (Again _ d') => tidy d'
  | Err _ => True
  end.
Proof.
  intros Ht. unfold page_turn.
  destruct (fetch n start e) as [rows |]; cbn [rbind]; [| exact I].
  destruct (25 <? List.length rows)%nat; [exact I |].
  destruct (rows_loop (mkPage [] e d) rows) as [st |] eqn:Hrows;
    cbn [rbind]; [| exact I].
  pose proof (rows_loop_tidy _ _ _ Hrows Ht) as Hst.
  destruct (List.length rows <? 25)%nat; [assumption |].
  destruct (List.length (unique_dates st) =? 1)%nat; [| assumption].
  destruct (start =? end_ st); assumption.
Qed.

Lemma meters_loop_tidy fuel :
  forall n start e d d',
    tidy d ->
    meters_loop fetch fuel n start e d = Some (Ok d') -> tidy d'.
Proof.
  induction fuel as [| fuel IH]; intros n start e d d' Ht; cbn; [discriminate |].
  pose proof (page_turn_tidy n start e d Ht) as Hturn.
  destruct (page_turn fetch n start e d) as [[d1 | e1 d1] | ex].
  - now intros [= <-].
  - now apply IH.
  - discriminate.
Qed.

(** X4: Whenever [meters_history] returns, its result has one entry per
    (name, serial) pair, and the history of an entry has no two equal
    readings (none compares equal to a later one) and no reading
    without consumption. *)
Theorem meters_history_tidy fuel start e res :
  meters_history_body fetch fuel start e = Some (Ok res) ->
  NoDup (map meter_of res) /\
  Forall (fun h => apart (history h) /\ Forall consumed (history h)) res.
Proof.
  unfold meters_history_body.
  destruct (date_or e _MAX_DATE <? date_or start _MIN_DATE); [discriminate |].
  destruct (meters_loop fetch fuel 0 (date_or start _MIN_DATE)
              (date_or e _MAX_DATE) []) as [[d |] |] eqn:Hloop;
    try discriminate.
  intros [= <-].
  assert (Ht : tidy d).
  { assert (Hnil : tidy (@nil (key_t * list MeterValue)))
      by (split; constructor).
    exact (meters_loop_tidy _ _ _ _ _ _ Hnil Hloop). }
  destruct Ht as [Hkeys Hall]. unfold history_result. split.
  - rewrite map_map. unfold meter_of. cbn.
    erewrite map_ext; [exact Hkeys |]. now intros [[nm sr] l].
  - apply Forall_map. rewrite Forall_forall in Hall |- *.
    intros kv Hkv. cbn. split; [apply fromkeys_by_apart |].
    specialize (Hall kv Hkv). rewrite Forall_forall in Hall |- *.
    intros v Hv. apply Hall. now apply fromkeys_by_In in Hv.
Qed.

(** X5: Removing the duplicates loses nothing: when the readings
    accumulated under each key are pairwise distinct (none compares
    equal to a later one), the result lists them as they are. *)
Theorem history_result_distinct (d : db_t) :
  Forall (fun kv => apart (snd kv)) d ->
  map history (history_result d) = map snd d.
Proof.
  unfold history_result. rewrite map_map.
  induction 1 as [| kv d Hkv _ IH]; cbn [map]; [reflexivity |].
  rewrite IH. cbn [history]. f_equal. now apply fromkeys_by_id.
Qed.

End MetersTidy.

(** Two requests, one per day, and the loop has ended. *)
Lemma meters_loop_total_witness :
  exists r,
    @Meters.meters_loop Sample.builtins Sample.utils MetersMore.two_full_days
      2 0 736700 736701 [] = Some r.
Proof.
  apply (@meters_loop_total Sample.builtins Sample.utils
           MetersMore.two_full_days two_full_days_well_behaved
           2 0 736700 736701 []); lia.
Defined.

Lemma meters_history_tidy_witness :
  NoDup (map (@MetersMore.meter_of Sample.builtins)
           [@Meters.mkMeterInfoHistory Sample.builtins "Холодная вода" "123"
              [Sample.reading 736701 10 2 "сайт";
               Sample.reading 736700 10 2 "сайт"]]).
Proof.
  apply (@meters_history_tidy Sample.builtins Sample.utils
           MetersMore.two_full_days 2 (Some 736700) (Some 736701)).
  reflexivity.
Defined.

Lemma history_result_distinct_witness :
  map (@Meters.history Sample.builtins)
    (@Meters.history_result Sample.builtins
       [(("Холодная вода", "123"), [Sample.reading_1; Sample.reading_2])])
  = [[Sample.reading_1; Sample.reading_2]].
Proof.
  apply (@history_result_distinct Sample.builtins
           [(("Холодная вода", "123"), [Sample.reading_1; Sample.reading_2])]).
  repeat constructor; cbn; intuition discriminate.
Defined.

(** ** Sending readings: [_set_meters_values] *)

Section SubmissionFacts.
Context `{Builtins} `{!Parsers} `{!MeterPages}.
Variable E : Session.env.
Import Session Submission.

(** *** The names of the fields *)

Lemma append_inv_head (s a b : string) :
  (s ++ a)%string = (s ++ b)%string -> a = b.
Proof.
  induction s as [| c s IH]; cbn; intros Heq; [exact Heq |].
  injection Heq as Heq. now apply IH.
Qed.

Lemma append_underscore_inj (s s' r r' : string) :
  ~ In "_"%char (list_ascii_of_string s) ->
  ~ In "_"%char (list_ascii_of_string s') ->
  (s ++ String "_" r)%string = (s' ++ String "_" r')%string -> s = s'.
Proof.
  revert s'. induction s as [| c s IH]; intros [| c' s'] Hs Hs' Heq;
    cbn in *.
  - reflexivity.
  - injection Heq as Hc _. subst c'. exfalso. apply Hs'. now left.
  - injection Heq as Hc _. subst c. exfalso. apply Hs. now left.
  - injection Heq as Hc Heq. subst c'. f_equal.
    apply IH; [intros Hin; apply Hs; now right
              | intros Hin; apply Hs'; now right | exact Heq].
Qed.

Lemma uint_chars (u : Decimal.uint) (c : ascii) :
  In c (list_ascii_of_string (NilEmpty.string_of_uint u)) ->
  In c (list_ascii_of_string "0123456789").
Proof.
  induction u; cbn; intros Hin; try contradiction;
    (destruct Hin as [Hin | Hin]; [subst c; cbn; tauto | now apply IHu]).
Qed.

Lemma str_of_int_chars (z : Z) (c : ascii) :
  In c (list_ascii_of_string (str_of_int z)) ->
  In c (list_ascii_of_string "-0123456789").
Proof.
  assert (Hu : forall u, In c (list_ascii_of_string (NilZero.string_of_uint u))
                         -> In c (list_ascii_of_string "0123456789")).
  { intros u. destruct u; try apply uint_chars.
    cbn. intros [Hc | []]. subst c. tauto. }
  unfold str_of_int, NilZero.string_of_int.
  destruct (Z.to_int z) as [u | u]; intros Hin.
  - right. now apply (Hu u).
  - destruct Hin as [Hc | Hin]; [now left | right; now apply (Hu u)].
Qed.

Lemma str_of_int_no_underscore (z : Z) :
  ~ In "_"%char (list_ascii_of_string (str_of_int z)).
Proof.
  intros Hin. apply str_of_int_chars in Hin. cbn in Hin.
  repeat (destruct Hin as [Hin | Hin]; [discriminate |]). exact Hin.
Qed.

Lemma str_of_int_no_slash (z : Z) : has_slash (str_of_int z) = false.
Proof.
  assert (Hs : forall s, ~ In "/"%char (list_ascii_of_string s) ->
                         has_slash s = false).
  { induction s as [| c s IH]; cbn; intros Hin; [reflexivity |].
    rewrite IH by tauto.
    destruct (Ascii.eqb_spec c "/"); [subst c; tauto | reflexivity]. }
  apply Hs. intros Hin. apply str_of_int_chars in Hin. cbn in Hin.
  repeat (destruct Hin as [Hin | Hin]; [discriminate |]). exact Hin.
Qed.

Lemma last_segment_after_slash (a s : string) :
  has_slash s = false -> last_segment (a ++ String "/" s) = s.
Proof.
  intros Hs. induction a as [| c a IH]; cbn.
  - now rewrite Hs.
  - assert (Hin : has_slash (a ++ String "/" s) = true).
    { clear IH. induction a as [| c' a IHa]; cbn;
        [reflexivity | rewrite IHa; apply orb_true_r]. }
    now rewrite Hin.
Qed.

Lemma str_of_int_inj (a b : Z) : str_of_int a = str_of_int b -> a = b.
Proof.
  unfold str_of_int. intros Heq. apply DecimalZ.to_int_inj.
  assert (Hnn : forall z, Z.to_int z <> Decimal.Pos Decimal.Nil /\
                          Z.to_int z <> Decimal.Neg Decimal.Nil).
  { intros [| p | p]; cbn; split; try discriminate;
      intros Hp; injection Hp as Hp;
      now apply (Unsigned.to_uint_nonnil p). }
  apply (f_equal NilZero.int_of_string) in Heq.
  rewrite !NilZero.isi in Heq by apply Hnn.
  now injection Heq.
Qed.

Lemma counter_field_inj (id id' : Z) (name name' : string) :
  counter_field id name = counter_field id' name' -> id = id' /\ name = name'.
Proof.
  unfold counter_field. intros Heq.
  apply append_inv_head in Heq.
  assert (Hid : id = id').
  { apply str_of_int_inj.
    apply (append_underscore_inj _ _ ("0][" ++ name ++ "]") ("0][" ++ name' ++ "]"));
      [apply str_of_int_no_underscore | apply str_of_int_no_underscore
      | exact Heq]. }
  split; [exact Hid |]. subst id'.
  apply append_inv_head in Heq.
  apply (append_inv_head "_0][") in Heq.
  revert name' Heq. induction name as [| c n IH]; intros [| c' n'] Heq;
    cbn in *; try reflexivity.
  - destruct n'; discriminate.
  - destruct n; discriminate.
  - injection Heq as Hc Heq. subst c'. f_equal. now apply IH.
Qed.

Lemma counter_field_not_ls (id : Z) (name : string) :
  counter_field id name <> "ls".
Proof. unfold counter_field. cbn. discriminate. Qed.

(** *** Assignments to the form *)

Lemma dict_get_set_same {V : Type} (k : string) (v : V) (d : list (string * V)) :
  dict_get String.eqb k (dict_set k v d) = Some v.
Proof.
  induction d as [| [k' v'] d IH]; cbn.
  - now rewrite String.eqb_refl.
  - destruct (k' =? k)%string eqn:Hk; cbn; rewrite Hk; [reflexivity | exact IH].
Qed.

Lemma dict_get_set_other {V : Type} (k k0 : string) (v : V)
    (d : list (string * V)) :
  k <> k0 ->
  dict_get String.eqb k0 (dict_set k v d) = dict_get String.eqb k0 d.
Proof.
  intros Hne. induction d as [| [k' v'] d IH]; cbn.
  - destruct (k =? k0)%string eqn:Hk; [| reflexivity].
    apply String.eqb_eq in Hk. contradiction.
  - destruct (k' =? k)%string eqn:Hk; cbn.
    + apply String.eqb_eq in Hk. subst k'.
      destruct (k =? k0)%string eqn:Hk0; [| reflexivity].
      apply String.eqb_eq in Hk0. contradiction.
    + destruct (k' =? k0)%string; [reflexivity | exact IH].
Qed.

(** *** The loop over the readings *)

Lemma fill_verdict (meters : list (Z * PublicMeterInfo))
    (values : list (Z * float)) (d : list (string * pyval)) :
  if forallb (acceptable meters) values
  then exists d', fill meters values d = Ok d'
  else fill meters values d = Err ValueError.
Proof.
  revert d. induction values as [| [id value] rest IH]; intros d; cbn.
  - now exists d.
  - unfold acceptable at 1. cbn [fst snd].
    destruct (dict_get Z.eqb id meters) as [m |]; [| reflexivity].
    destruct (meter_truthy m); [| reflexivity].
    destruct (float_gt value (meter_value m)); [| reflexivity].
    cbn [andb]. apply IH.
Qed.

Lemma fill_other (meters : list (Z * PublicMeterInfo))
    (values : list (Z * float)) (d d' : list (string * pyval)) (k : string) :
  fill meters values d = Ok d' ->
  (forall id name, In id (map fst values) -> k <> counter_field id name) ->
  dict_get String.eqb k d' = dict_get String.eqb k d.
Proof.
  revert d. induction values as [| [id value] rest IH]; intros d Hfill Hk;
    cbn [fill] in Hfill.
  - now injection Hfill as <-.
  - destruct (dict_get Z.eqb id meters) as [m |]; [| discriminate].
    destruct (meter_truthy m); [| discriminate].
    destruct (float_gt value (meter_value m)); [| discriminate].
    rewrite (IH _ Hfill) by (intros; apply Hk; now right).
    rewrite !dict_get_set_other;
      [reflexivity | | |];
      intros Heq; (eapply (Hk id); [now left | symmetry; exact Heq]).
Qed.

Lemma fill_fields (meters : list (Z * PublicMeterInfo))
    (values : list (Z * float)) (d d' : list (string * pyval)) :
  fill meters values d = Ok d' ->
  NoDup (map fst values) ->
  forall id v, In (id, v) values ->
    dict_get String.eqb (counter_field id "value") d' = Some (PFloat v) /\
    dict_get String.eqb (counter_field id "rawId") d' = Some (PInt id) /\
    dict_get String.eqb (counter_field id "tarif") d' = Some (PInt 0).
Proof.
  revert d. induction values as [| [id0 v0] rest IH]; intros d Hfill Hnd id v Hin;
    [destruct Hin |].
  cbn [fill] in Hfill. cbn in Hnd. inversion Hnd as [| ? ? Hnot Hnd']; subst.
  destruct (dict_get Z.eqb id0 meters) as [m |]; [| discriminate].
  destruct (meter_truthy m); [| discriminate].
  destruct (float_gt v0 (meter_value m)); [| discriminate].
  destruct Hin as [Heq | Hin]; [| now apply (IH _ Hfill Hnd')].
  injection Heq as -> ->.
  assert (Hfresh : forall name id' name',
             In id' (map fst rest) ->
             counter_field id name <> counter_field id' name').
  { intros name id' name' Hin' Heq. apply counter_field_inj in Heq as [<- _].
    contradiction. }
  rewrite !(fill_other _ _ _ _ _ Hfill) by (intros; now apply Hfresh).
  assert (Hname : forall a b : string, a <> b ->
             counter_field id a <> counter_field id b).
  { intros a b Hab Heq. apply counter_field_inj in Heq as [_ Heq].
    contradiction. }
  repeat split.
  - rewrite !dict_get_set_other by (apply Hname; discriminate).
    apply dict_get_set_same.
  - rewrite dict_get_set_other by (apply Hname; discriminate).
    apply dict_get_set_same.
  - apply dict_get_set_same.
Qed.

(** *** Sending the readings *)

Lemma set_meters_values_steps (p : string) (values : list (Z * float)) :
  values <> [] ->
  _set_meters_values E p values =
  bind (_get E p []) (fun x =>
  bind (lift (text x)) (fun html =>
  bind (lift (parse_meters html)) (fun meters =>
  bind (lift (account_field p)) (fun d0 =>
  bind (lift (fill meters values d0)) (fun d =>
  bind (_post E p d) (fun _ => ret tt)))))).
Proof. destruct values; [contradiction | reflexivity]. Qed.

(** X22: one reading that cannot be accepted (its meter is not on the
    page, or it is not above the current reading) makes
    [_set_meters_values] raise after the page has been read: nothing is
    posted, not even the readings that come before it in the mapping. *)
Theorem set_meters_values_all_or_nothing (p : string)
    (values : list (Z * float)) (w : world) (x : response) (html : string)
    (meters : list (Z * PublicMeterInfo)) :
  server E (tick w) (mkRequest "GET" p []) = Ok x ->
  text x = Ok html ->
  parse_meters html = Ok meters ->
  forallb (acceptable meters) values = false ->
  exists e w',
    _set_meters_values E p values w = Raise e w' /\
    self w' = self w /\
    sent w' = sent w ++ [mkRequest "GET" p []] /\
    (forall d0, account_field p = Ok d0 -> e = ValueError).
Proof.
  intros Hget Htext Hparse Hbad.
  assert (Hne : values <> []) by (intros ->; discriminate).
  rewrite (set_meters_values_steps p values Hne).
  unfold bind, _get, _request, lift. rewrite Hget, Htext, Hparse.
  destruct (account_field p) as [d0 | e0].
  - pose proof (fill_verdict meters values d0) as Hfill.
    rewrite Hbad in Hfill. rewrite Hfill.
    eexists. eexists. repeat split.
  - eexists. eexists. repeat split. intros d0 Hd0. discriminate.
Qed.

(** X23: when every reading is above the current reading of a meter of
    the page, [_set_meters_values] reads the page and posts one form to
    the same path, with the token of the session; the form holds, for
    each meter of the mapping, its reading, its identifier and tariff 0,
    and the account number the path gave for [ls]. *)
Theorem set_meters_values_posts (p : string)
    (values : list (Z * float)) (w : world) (x : response) (html : string)
    (meters : list (Z * PublicMeterInfo)) (d0 : list (string * pyval)) :
  values <> [] ->
  NoDup (map fst values) ->
  server E (tick w) (mkRequest "GET" p []) = Ok x ->
  text x = Ok html ->
  parse_meters html = Ok meters ->
  account_field p = Ok d0 ->
  forallb (acceptable meters) values = true ->
  exists d,
    sent (final (_set_meters_values E p values w)) =
    sent w ++ [mkRequest "GET" p [];
               mkRequest "POST" p (d ++ [("_token", pv (_token (self w)))])] /\
    self (final (_set_meters_values E p values w)) = self w /\
    dict_get String.eqb "ls" d = dict_get String.eqb "ls" d0 /\
    forall id v, In (id, v) values ->
      dict_get String.eqb (counter_field id "value") d = Some (PFloat v) /\
      dict_get String.eqb (counter_field id "rawId") d = Some (PInt id) /\
      dict_get String.eqb (counter_field id "tarif") d = Some (PInt 0).
Proof.
  intros Hne Hnd Hget Htext Hparse Hacc Hgood.
  pose proof (fill_verdict meters values d0) as Hfill.
  rewrite Hgood in Hfill. destruct Hfill as [d Hfill].
  exists d.
  rewrite (set_meters_values_steps p values Hne).
  unfold _get, _post, _request. unfold bind, lift, gets, ret.
  rewrite Hget, Htext, Hparse, Hacc, Hfill. cbn [self tick sent semaphore].
  repeat split.
  - match goal with
    | |- context [match server E ?t ?r with _ => _ end] =>
        destruct (server E t r)
    end; cbn; now rewrite <- app_assoc.
  - match goal with
    | |- context [match server E ?t ?r with _ => _ end] =>
        destruct (server E t r)
    end; reflexivity.
  - apply (fill_other _ _ _ _ _ Hfill). intros id name _ Heq.
    now apply (counter_field_not_ls id name).
  - now apply (fill_fields _ _ _ _ Hfill Hnd id v).
  - now apply (fill_fields _ _ _ _ Hfill Hnd id v).
  - now apply (fill_fields _ _ _ _ Hfill Hnd id v).
Qed.

(** X24: the path [pub_set_meters_values] builds for an account gives the
    account number back: the form starts with [ls] set to it. *)
Theorem public_path_account_field (acc : Z) :
  pyint (str_of_int acc) = Ok acc ->
  account_field ("/counters/" ++ str_of_int acc) = Ok [("ls", PInt acc)].
Proof.
  intros Hint. unfold account_field.
  change ("/counters/" ++ str_of_int acc)%string
    with ("/counters" ++ String "/" (str_of_int acc))%string.
  rewrite last_segment_after_slash by apply str_of_int_no_slash.
  cbn. now rewrite Hint.
Qed.

End SubmissionFacts.

(** ** The further properties of the session, on the sample portals *)

#[local] Existing Instance Sample.builtins.
#[local] Existing Instance Sample.parsers.

Lemma account_add_bound_after_witness :
  SessionMore.bound (SessionMore.account_of (inl 43))
    (Session.self
       (Session.final
          (Session.account_add_body SampleMore.binding (inl 43) 100
             (Sample.logged_in SampleMore.binding)))).
Proof.
  apply (account_add_bound_after SampleMore.binding (inl 43) 100
           (Sample.logged_in SampleMore.binding)).
  vm_compute. reflexivity.
Defined.

Lemma account_rm_unbound_after_witness :
  exists l,
    Session._accounts
      (Session.self
         (Session.final
            (Session.account_rm_body SampleMore.binding 42
               (Sample.logged_in SampleMore.binding)))) = Some l /\
    ~ In 42 l.
Proof.
  apply (account_rm_unbound_after SampleMore.binding 42
           (Sample.logged_in SampleMore.binding)).
  vm_compute. reflexivity.
Defined.

Lemma account_binding_idempotent_witness :
  Session.account_add_body Sample.healthy (inl 42) 0
    (Sample.logged_in Sample.healthy)
  = Session.Return tt (Sample.logged_in Sample.healthy) /\
  Session.account_rm_body Sample.healthy 43 (Sample.logged_in Sample.healthy)
  = Session.Return tt (Sample.logged_in Sample.healthy).
Proof.
  destruct (account_binding_idempotent Sample.healthy
              (Sample.logged_in Sample.healthy)) as [Hadd Hrm].
  split.
  - apply (Hadd (inl 42) 0). exists [42]. split; [reflexivity | now left].
  - apply (Hrm 43 [42]); [reflexivity |]. intros [Heq | []]. discriminate.
Defined.

Lemma account_add_needs_amount_witness :
  match Session.account_add_body Sample.healthy (inl 43) 0
          (Sample.logged_in Sample.healthy) with
  | Session.Return _ w' =>
      w' = Sample.logged_in Sample.healthy /\
      SessionMore.bound (SessionMore.account_of (inl 43))
        (Session.self (Sample.logged_in Sample.healthy))
  | Session.Raise e w' =>
      w' = Sample.logged_in Sample.healthy /\
      (e = ValueError \/ e = AuthorizationRequired)
  | Session.Blocked _ => False
  end.
Proof.
  apply (account_add_needs_amount Sample.healthy (inl 43) 0
           (Sample.logged_in Sample.healthy)).
  reflexivity.
Defined.

Lemma open_returns_ready_witness :
  Session._token (Session.self (Sample.logged_in Sample.healthy)) <> None /\
  (true = true ->
   Session._accounts (Session.self (Sample.logged_in Sample.healthy)) <> None) /\
  Session.cli_closed (Session.self (Sample.logged_in Sample.healthy)) =
  Session.cli_closed (Session.self Sample.user).
Proof.
  apply (open_returns_ready Sample.healthy None None true Sample.user).
  vm_compute. reflexivity.
Defined.

Lemma open_missing_credentials_witness :
  match Session.open Sample.healthy None None true Sample.anonymous with
  | Session.Return _ _ => False
  | Session.Raise _ w' | Session.Blocked w' =>
      (Session.sent w' = Session.sent Sample.anonymous \/
       Session.sent w' = Session.sent Sample.anonymous ++ [Session.get_login]) /\
      Session.authorized (Session.self w') = false
  end.
Proof.
  apply (open_missing_credentials Sample.healthy None None Sample.anonymous);
    reflexivity.
Defined.

Lemma open_rejected_login_witness :
  exists w',
    Session.open SampleMore.rejecting (Some "user@example.org") (Some "secret")
      true (Sample.visiting SampleMore.rejecting)
    = Session.Raise AuthorizationError w' /\
    Session.self w' = Session.self (Sample.visiting SampleMore.rejecting) /\
    Session.semaphore w' =
    Session.semaphore (Sample.visiting SampleMore.rejecting).
Proof.
  apply (open_rejected_login SampleMore.rejecting (Some "user@example.org")
           (Some "secret") (Sample.visiting SampleMore.rejecting) "1"
           (Sample.page "/login" ["/login"] "") "/login" []);
    vm_compute; reflexivity.
Defined.

Lemma open_posts_fresh_token_witness :
  exists x html tok,
    Session.server Sample.healthy (S (Session.tick Sample.user))
      Session.get_login = Ok x /\
    Session.text x = Ok html /\ parse_token html = Ok tok /\
    Session._token (Session.self (Sample.logged_in Sample.healthy)) = Some tok /\
    Session.sent (Sample.logged_in Sample.healthy) =
    Session.sent Sample.user ++
    [Session.get_login;
     SessionMore.login_post
       (SessionMore.effective None (Session._login (Session.self Sample.user)))
       (SessionMore.effective None
          (Session._password (Session.self Sample.user))) tok] /\
    Session._login (Session.self (Sample.logged_in Sample.healthy)) =
    SessionMore.effective None (Session._login (Session.self Sample.user)) /\
    Session._password (Session.self (Sample.logged_in Sample.healthy)) =
    SessionMore.effective None (Session._password (Session.self Sample.user)).
Proof.
  apply (open_posts_fresh_token Sample.healthy None None Sample.user
           (Sample.logged_in Sample.healthy));
    vm_compute; reflexivity.
Defined.

Lemma guard_private_authorized_witness :
  Session._token
    (Session.self
       (Session.final (Session.guard Sample.healthy true false Sample.user)))
  <> None /\
  Session._accounts
    (Session.self
       (Session.final (Session.guard Sample.healthy true false Sample.user)))
  <> None.
Proof.
  destruct (guard_private_authorized Sample.healthy (Session.ret tt)
              Sample.user
              (Session.final
                 (Session.guard Sample.healthy true false Sample.user)))
    as (_ & Htoken & Haccounts & _).
  - vm_compute. reflexivity.
  - split; assumption.
Defined.

Lemma guard_private_noop_witness :
  Session.guard Sample.healthy true false (Sample.logged_in Sample.healthy)
  = Session.Return tt (SessionMore.ticked (Sample.logged_in Sample.healthy)).
Proof.
  apply (guard_private_noop Sample.healthy true
           (Sample.logged_in Sample.healthy));
    vm_compute; reflexivity.
Defined.

Lemma expired_session_blocks_witness :
  exists w',
    Session.api Sample.expiring true false false (Session.ret tt)
      (Sample.visiting Sample.expiring) = Session.Blocked w' /\
    Session._token (Session.self w') = None /\
    Session.sent w' = Session.sent (Sample.visiting Sample.expiring).
Proof.
  apply (expired_session_blocks Sample.expiring true (Session.ret tt)
           (Sample.visiting Sample.expiring) false);
    vm_compute; reflexivity.
Defined.

Lemma download_pdf_unbound_witness :
  Session.download_pdf_body Sample.healthy SampleMore.receipt_of_stranger false
    (Sample.logged_in Sample.healthy)
  = Session.Return [] (Sample.logged_in Sample.healthy).
Proof.
  apply (download_pdf_unbound Sample.healthy SampleMore.receipt_of_stranger
           false (Sample.logged_in Sample.healthy) AccountNotFound).
  vm_compute. reflexivity.
Defined.


#[local] Existing Instance SampleMore.meter_pages.

Lemma set_meters_values_all_or_nothing_witness :
  exists e w',
    Submission._set_meters_values Sample.healthy "/counters/5"
      ([(1, 11); (2, 20)] : list (Z * @float Sample.builtins))
      (Sample.visiting Sample.healthy) = Session.Raise e w' /\
    Session.self w' = Session.self (Sample.visiting Sample.healthy) /\
    Session.sent w' =
    Session.sent (Sample.visiting Sample.healthy) ++
    [Session.mkRequest "GET" "/counters/5" []] /\
    (forall d0, Submission.account_field "/counters/5" = Ok d0 ->
                e = ValueError).
Proof.
  apply (set_meters_values_all_or_nothing Sample.healthy "/counters/5"
           ([(1, 11); (2, 20)] : list (Z * @float Sample.builtins))
           (Sample.visiting Sample.healthy)
           (Sample.page "/counters/5" [] "meters") "meters"
           ([(1, 10); (2, 20)]
            : list (Z * @PublicMeterInfo Sample.builtins
                          SampleMore.meter_pages)));
    vm_compute; reflexivity.
Defined.

Lemma set_meters_values_posts_witness :
  exists d,
    Session.sent
      (Session.final
         (Submission._set_meters_values Sample.healthy "/counters/5"
            ([(1, 11); (2, 25)] : list (Z * @float Sample.builtins))
            (Sample.visiting Sample.healthy))) =
    Session.sent (Sample.visiting Sample.healthy) ++
    [Session.mkRequest "GET" "/counters/5" [];
     Session.mkRequest "POST" "/counters/5"
       (d ++ [("_token",
               Session.pv
                 (Session._token
                    (Session.self (Sample.visiting Sample.healthy))))])] /\
    Session.self
      (Session.final
         (Submission._set_meters_values Sample.healthy "/counters/5"
            ([(1, 11); (2, 25)] : list (Z * @float Sample.builtins))
            (Sample.visiting Sample.healthy))) =
    Session.self (Sample.visiting Sample.healthy) /\
    dict_get String.eqb "ls" d =
    dict_get String.eqb "ls" [("ls", Session.PInt 5)] /\
    forall id v,
      In (id, v) ([(1, 11); (2, 25)] : list (Z * @float Sample.builtins)) ->
      dict_get String.eqb (Submission.counter_field id "value") d =
      Some (Session.PFloat v) /\
      dict_get String.eqb (Submission.counter_field id "rawId") d =
      Some (Session.PInt id) /\
      dict_get String.eqb (Submission.counter_field id "tarif") d =
      Some (Session.PInt 0).
Proof.
  apply (set_meters_values_posts Sample.healthy "/counters/5"
           ([(1, 11); (2, 25)] : list (Z * @float Sample.builtins))
           (Sample.visiting Sample.healthy)
           (Sample.page "/counters/5" [] "meters") "meters"
           ([(1, 10); (2, 20)]
            : list (Z * @PublicMeterInfo Sample.builtins
                          SampleMore.meter_pages)) [("ls", Session.PInt 5)]).
  - discriminate.
  - cbn. repeat constructor; cbn; intuition discriminate.
  - vm_compute. reflexivity.
  - vm_compute. reflexivity.
  - vm_compute. reflexivity.
  - vm_compute. reflexivity.
  - vm_compute. reflexivity.
Defined.

Lemma public_path_account_field_witness :
  Submission.account_field "/counters/5" = Ok [("ls", Session.PInt 5)].
Proof.
  apply (public_path_account_field 5). vm_compute. reflexivity.
Defined.
